(** * The rule engine of the EVA query optimizer

    A shallow embedding of [src/optimizer/rules/rules.py]: the two
    [IntFlag] enumerations [RuleType] and [Promise], the pattern matcher
    [Rule._compare_expr_with_pattern] and [Rule.top_match], the [apply]
    methods of the seven concrete rules over an explicit object store, and
    the rule registry [RulesManager]. *)

From Stdlib Require Import ZArith Lia.
From stdpp Require Import base option list gmap strings.

Local Open Scope Z_scope.
#[local] Set Warnings "-clear-no-such-hyp".

(** ** Enumerations *)

Module Flag.

(** [enum.auto()] inside an [IntFlag] class body: the first member gets
    [1], every later one the power of two above the highest bit of the
    value assigned last. *)
Definition auto (last_values : list Z) : Z :=
  match last last_values with
  | None => 1
  | Some v => 2 ^ (Z.log2 v + 1)
  end.

(** The values of [count] members that are all declared [auto()], in
    declaration order. *)
Fixpoint autos_from (last_values : list Z) (count : nat) : list Z :=
  match count with
  | O => []
  | S n => let v := auto last_values in v :: autos_from (last_values ++ [v]) n
  end.

Definition autos (count : nat) : list Z := autos_from [] count.

End Flag.

(** [class RuleType(IntFlag)], members in declaration order. *)
Inductive RuleType : Set :=
| RT_EMBED_FILTER_INTO_GET
| RT_EMBED_PROJECT_INTO_GET
| RT_REWRITE_DELIMETER
| RT_LOGICAL_INSERT_TO_PHYSICAL
| RT_LOGICAL_LOAD_TO_PHYSICAL
| RT_LOGICAL_CREATE_TO_PHYSICAL
| RT_LOGICAL_CREATE_UDF_TO_PHYSICAL
| RT_LOGICAL_GET_TO_SEQSCAN
| RT_IMPLEMENTATION_DELIMETER.

#[global] Instance RuleType_eq_dec : EqDecision RuleType.
Proof. solve_decision. Defined.

Module RuleTypes.

Definition members : list RuleType :=
  [ RT_EMBED_FILTER_INTO_GET; RT_EMBED_PROJECT_INTO_GET;
    RT_REWRITE_DELIMETER;
    RT_LOGICAL_INSERT_TO_PHYSICAL; RT_LOGICAL_LOAD_TO_PHYSICAL;
    RT_LOGICAL_CREATE_TO_PHYSICAL; RT_LOGICAL_CREATE_UDF_TO_PHYSICAL;
    RT_LOGICAL_GET_TO_SEQSCAN;
    RT_IMPLEMENTATION_DELIMETER ].

(** Position of a member in the class body. *)
Definition index (t : RuleType) : nat :=
  match t with
  | RT_EMBED_FILTER_INTO_GET => 0
  | RT_EMBED_PROJECT_INTO_GET => 1
  | RT_REWRITE_DELIMETER => 2
  | RT_LOGICAL_INSERT_TO_PHYSICAL => 3
  | RT_LOGICAL_LOAD_TO_PHYSICAL => 4
  | RT_LOGICAL_CREATE_TO_PHYSICAL => 5
  | RT_LOGICAL_CREATE_UDF_TO_PHYSICAL => 6
  | RT_LOGICAL_GET_TO_SEQSCAN => 7
  | RT_IMPLEMENTATION_DELIMETER => 8
  end%nat.

(** The integer behind a member: what [auto()] produced at its place. *)
Definition value (t : RuleType) : Z :=
  default 0 (Flag.autos (length members) !! index t).

(** The mask [t1 | t2 | ...] a caller builds to select some rules. *)
Definition mask_of (ts : list RuleType) : Z :=
  foldr (λ t m, Z.lor (value t) m) 0 ts.

(** [mask & t] is truthy. *)
Definition selected (mask : Z) (t : RuleType) : bool :=
  negb (Z.land mask (value t) =? 0).

End RuleTypes.

(** [class Promise(IntFlag)], members in declaration order. *)
Inductive Promise : Set :=
| PR_LOGICAL_INSERT_TO_PHYSICAL
| PR_LOGICAL_LOAD_TO_PHYSICAL
| PR_LOGICAL_CREATE_TO_PHYSICAL
| PR_LOGICAL_CREATE_UDF_TO_PHYSICAL
| PR_LOGICAL_PROJECT_TO_PHYSICAL
| PR_LOGICAL_GET_TO_SEQSCAN
| PR_EMBED_FILTER_INTO_GET
| PR_EMBED_PROJECT_INTO_GET
| PR_UDF_LTOR.

#[global] Instance Promise_eq_dec : EqDecision Promise.
Proof. solve_decision. Defined.

Module Promises.

Definition members : list Promise :=
  [ PR_LOGICAL_INSERT_TO_PHYSICAL; PR_LOGICAL_LOAD_TO_PHYSICAL;
    PR_LOGICAL_CREATE_TO_PHYSICAL; PR_LOGICAL_CREATE_UDF_TO_PHYSICAL;
    PR_LOGICAL_PROJECT_TO_PHYSICAL; PR_LOGICAL_GET_TO_SEQSCAN;
    PR_EMBED_FILTER_INTO_GET; PR_EMBED_PROJECT_INTO_GET; PR_UDF_LTOR ].

Definition index (p : Promise) : nat :=
  match p with
  | PR_LOGICAL_INSERT_TO_PHYSICAL => 0
  | PR_LOGICAL_LOAD_TO_PHYSICAL => 1
  | PR_LOGICAL_CREATE_TO_PHYSICAL => 2
  | PR_LOGICAL_CREATE_UDF_TO_PHYSICAL => 3
  | PR_LOGICAL_PROJECT_TO_PHYSICAL => 4
  | PR_LOGICAL_GET_TO_SEQSCAN => 5
  | PR_EMBED_FILTER_INTO_GET => 6
  | PR_EMBED_PROJECT_INTO_GET => 7
  | PR_UDF_LTOR => 8
  end%nat.

Definition value (p : Promise) : Z :=
  default 0 (Flag.autos (length members) !! index p).

End Promises.

(** ** Data model *)

(** Heap addresses of Python objects. *)
Abbreviation loc := nat.

(** What an attribute of an operator or plan node holds: [None], a flag, a
  number, a name, or a reference to some other object (an expression
  tree, a column list, catalog metadata), which the rules pass on and
  never look into. *)
Inductive Value : Set :=
| VNone
| VBool (b : bool)
| VInt (z : Z)
| VStr (s : string)
| VRef (r : loc).

#[global] Instance Value_eq_dec : EqDecision Value.
Proof. solve_decision. Defined.

(** Modelled from the spec: [OperatorType] of [src/optimizer/operators.py],
  which is not among the sources; an enumeration whose members are the
  tags that [rules.py] names, compared by identity. *)
Inductive OperatorType : Set :=
| LOGICALGET
| LOGICALFILTER
| LOGICALPROJECT
| LOGICALINSERT
| LOGICALCREATE
| LOGICALCREATEUDF
| LOGICALLOADDATA
| DUMMY.

#[global] Instance OperatorType_eq_dec : EqDecision OperatorType.
Proof. solve_decision. Defined.

(** Modelled from the spec: the [Operator] objects of
  [src/optimizer/operators.py]: an operator-type tag, the ordered child
  operators, and the attributes of the concrete subclass, kept by name
  as Python keeps them. *)
Module Operator.
Record t : Type := mk {
  type : OperatorType;
  children : list loc;
  attrs : gmap string Value }.
End Operator.

(** Modelled from the spec: [Pattern] of [src/optimizer/rules/pattern.py]:
  an operator-type tag and an ordered sequence of child patterns;
  [Pattern(t)] has no children and [append_child] adds one at the end. *)
#[warnings="-register-all"]
Inductive Pattern : Type :=
| mkPattern (opr_type : OperatorType) (children : list Pattern).

Module Patterns.
Definition opr_type (p : Pattern) : OperatorType :=
  match p with mkPattern t _ => t end.
Definition children (p : Pattern) : list Pattern :=
  match p with mkPattern _ cs => cs end.
Definition new (t : OperatorType) : Pattern := mkPattern t [].
Definition append_child (p child : Pattern) : Pattern :=
  mkPattern (opr_type p) (children p ++ [child]).
End Patterns.

(** Modelled from the spec: the memo of [src/optimizer/memo.py] and its
  groups: [get_group(id)] finds the group stored under an id, and a group
  gives its logical expression, an operator with the ids of its child
  groups, or [None]. *)
Module GroupExpression.
Record t : Type := mk {
  opr : Operator.t;
  children : list Z }.
End GroupExpression.

Module Group.
Record t : Type := mk {
  logical_expr : option GroupExpression.t }.
Definition get_logical_expr (g : t) : option GroupExpression.t :=
  logical_expr g.
End Group.

Module Memo.
Record t : Type := mk {
  groups : gmap Z Group.t }.
(** [None] when no group is stored under [grp_id]: the lookup raises. *)
Definition get_group (m : t) (grp_id : Z) : option Group.t :=
  groups m !! grp_id.
End Memo.

Module OptimizerContext.
Record t : Type := mk {
  memo : Memo.t }.
End OptimizerContext.

(** ** Matching *)

Module Matching.

(** Lines 116-117: the test that makes the matcher give up at the root. *)
Definition root_differs (grp_expr : GroupExpression.t) (pattern : Pattern)
  : bool :=
  bool_decide (Operator.type (GroupExpression.opr grp_expr)
               ≠ Patterns.opr_type pattern)
  || bool_decide (length (GroupExpression.children grp_expr)
                  ≠ length (Patterns.children pattern)).

(** [Rule._compare_expr_with_pattern]. The result is [None] when the call
    raises, which it does only when [get_group] does. The recursion
    follows the pattern, a finite tree, so every call returns. *)
Fixpoint compare_expr_with_pattern (context : OptimizerContext.t)
    (grp_id : Z) (pattern : Pattern) {struct pattern} : option bool :=
  match Memo.get_group (OptimizerContext.memo context) grp_id with
  | None => None
  | Some grp =>
    match Group.get_logical_expr grp with
    | None => Some false
    | Some grp_expr =>
      if root_differs grp_expr pattern then Some false
      else
        (fix loop (ids : list Z) (pats : list Pattern) (is_equal : bool)
            {struct pats} : option bool :=
           match ids, pats with
           | child_id :: ids', pattern_child :: pats' =>
             match compare_expr_with_pattern context child_id
                     pattern_child with
             | None => None
             | Some r => loop ids' pats' (is_equal && r)
             end
           | _, _ => Some is_equal
           end) (GroupExpression.children grp_expr)
                (Patterns.children pattern) true
    end
  end.

(** The loop of lines 120-123 on its own: [is_equal &= ...] over the
    zipped child ids and child patterns. *)
Fixpoint compare_children (context : OptimizerContext.t)
    (ids : list Z) (pats : list Pattern) (is_equal : bool) : option bool :=
  match ids, pats with
  | child_id :: ids', pattern_child :: pats' =>
    match compare_expr_with_pattern context child_id pattern_child with
    | None => None
    | Some r => compare_children context ids' pats' (is_equal && r)
    end
  | _, _ => Some is_equal
  end.

(** The matcher as the specification words it: step 1 resolves the
    expression, step 2 compares the tags unless the pattern's tag is the
    wildcard [DUMMY], step 3 compares the child counts, step 4 is the
    conjunction over the aligned children. *)
Fixpoint deep_match_spec (context : OptimizerContext.t)
    (grp_id : Z) (p : Pattern) {struct p} : bool :=
  match Memo.get_group (OptimizerContext.memo context) grp_id with
  | None => false
  | Some grp =>
    match Group.get_logical_expr grp with
    | None => false
    | Some e =>
      (bool_decide (Operator.type (GroupExpression.opr e)
                    = Patterns.opr_type p)
       || bool_decide (Patterns.opr_type p = DUMMY))
      && bool_decide (length (GroupExpression.children e)
                      = length (Patterns.children p))
      && (fix all (ids : list Z) (ps : list Pattern) {struct ps} : bool :=
            match ids, ps with
            | i :: ids', q :: ps' =>
              deep_match_spec context i q && all ids' ps'
            | _, _ => true
            end) (GroupExpression.children e) (Patterns.children p)
    end
  end.

(** Step 4 of the specification's matcher on its own. *)
Fixpoint all_match_spec (context : OptimizerContext.t)
    (ids : list Z) (ps : list Pattern) : bool :=
  match ids, ps with
  | i :: ids', q :: ps' =>
    deep_match_spec context i q && all_match_spec context ids' ps'
  | _, _ => true
  end.

(** No node of the pattern carries the tag [DUMMY]. *)
Fixpoint dummy_free (p : Pattern) : bool :=
  match p with
  | mkPattern tag pats => bool_decide (tag ≠ DUMMY) && forallb dummy_free pats
  end.

(** Every child id stored in the memo is the id of a stored group. *)
Definition closed (context : OptimizerContext.t) : Prop :=
  ∀ grp_id grp grp_expr child_id,
    Memo.get_group (OptimizerContext.memo context) grp_id = Some grp →
    Group.get_logical_expr grp = Some grp_expr →
    child_id ∈ GroupExpression.children grp_expr →
    is_Some (Memo.get_group (OptimizerContext.memo context) child_id).

(** The memo with every stored operator replaced by its image under [f],
    the child group ids kept. *)
Definition map_operators (f : Operator.t → Operator.t)
    (context : OptimizerContext.t) : OptimizerContext.t :=
  OptimizerContext.mk
    (Memo.mk
       ((λ grp,
           Group.mk
             ((λ e, GroupExpression.mk (f (GroupExpression.opr e))
                      (GroupExpression.children e))
              <$> Group.logical_expr grp))
        <$> Memo.groups (OptimizerContext.memo context))).


End Matching.

(** ** The object store *)

(** Modelled from the spec: the plan nodes of [src/planner/], none of which
    is among the sources: a node-type tag, the child plan nodes in order,
    and the fields the node carries. *)
Inductive PlanNodeType : Set :=
  | SEQUENTIAL_SCAN
  | STORAGE_PLAN
  | CREATE
  | CREATE_UDF
  | INSERT
  | LOAD_DATA.

#[global] Instance PlanNodeType_eq_dec : EqDecision PlanNodeType.
Proof. solve_decision. Defined.

Module AbstractPlan.
Record t : Type := mk {
  node_type : PlanNodeType;
  children : list loc;
  attrs : gmap string Value }.
End AbstractPlan.

(** What lives at an address: a logical operator or a plan node. *)
Inductive Object : Type :=
  | OOperator (o : Operator.t)
  | OPlan (p : AbstractPlan.t).

Module Obj.

Definition attrs (o : Object) : gmap string Value :=
  match o with
  | OOperator o => Operator.attrs o
  | OPlan p => AbstractPlan.attrs p
  end.

Definition children (o : Object) : list loc :=
  match o with
  | OOperator o => Operator.children o
  | OPlan p => AbstractPlan.children p
  end.

(** [o.name = v]: one slot written, the others kept. *)
Definition set_attr (name : string) (v : Value) (o : Object) : Object :=
  match o with
  | OOperator o =>
    OOperator (Operator.mk (Operator.type o) (Operator.children o)
                 (<[name := v]> (Operator.attrs o)))
  | OPlan p =>
    OPlan (AbstractPlan.mk (AbstractPlan.node_type p)
             (AbstractPlan.children p) (<[name := v]> (AbstractPlan.attrs p)))
  end.

Definition add_child (child : loc) (o : Object) : Object :=
  match o with
  | OOperator o =>
    OOperator (Operator.mk (Operator.type o) (Operator.children o ++ [child])
                 (Operator.attrs o))
  | OPlan p =>
    OPlan (AbstractPlan.mk (AbstractPlan.node_type p)
             (AbstractPlan.children p ++ [child]) (AbstractPlan.attrs p))
  end.

End Obj.

(** Python code over the store: a state transformer that may raise
    ([None]). Objects are reached by address, so two names for one object
    see each other's writes. *)
Module Py.

Definition t (A : Type) : Type :=
  gmap loc Object → option (A * gmap loc Object).

Definition ret {A} (a : A) : t A := λ h, Some (a, h).

Definition bind {A B} (m : t A) (k : A → t B) : t B :=
  λ h, match m h with
       | None => None
       | Some (a, h') => k a h'
       end.

(** [self.name]; raises when the object has no such attribute. *)
Definition getattr (self : loc) (name : string) : t Value :=
  λ h, match h !! self with
       | None => None
       | Some o =>
         match Obj.attrs o !! name with
         | None => None
         | Some v => Some (v, h)
         end
       end.

(** [self.name = v], in place. *)
Definition setattr (self : loc) (name : string) (v : Value) : t unit :=
  λ h, match h !! self with
       | None => None
       | Some o => Some (tt, <[self := Obj.set_attr name v o]> h)
       end.

(** [self.children[i]]; raises when the index is out of range. *)
Definition child (self : loc) (i : nat) : t loc :=
  λ h, match h !! self with
       | None => None
       | Some o =>
         match Obj.children o !! i with
         | None => None
         | Some c => Some (c, h)
         end
       end.

(** A constructor call: the new object gets an address not in use. *)
Definition new (o : Object) : t loc :=
  λ h, let l := fresh (dom h) in Some (l, <[l := o]> h).

(** [self.append_child(c)], in place. *)
Definition append_child (self : loc) (c : loc) : t unit :=
  λ h, match h !! self with
       | None => None
       | Some o => Some (tt, <[self := Obj.add_child c o]> h)
       end.

End Py.

Notation "'let!' x ':=' m 'in' k" := (Py.bind m (λ x, k))
  (at level 10, x name, m at level 100, k at level 200, only parsing).
Notation "'do!' m 'in' k" := (Py.bind m (λ _, k))
  (at level 10, m at level 100, k at level 200, only parsing).

(** Modelled from the spec: the constructors of the plan classes in
    [src/planner/]: each returns a node without children that carries its
    arguments; the scan carries them as [predicate] and [output_cols], the
    storage node as [metadata], the others under the names of the operator
    attributes they are copied from. *)
Module Plans.

Definition node (nt : PlanNodeType) (fields : list (string * Value))
  : Py.t loc :=
  Py.new (OPlan (AbstractPlan.mk nt [] (list_to_map fields))).

Definition CreatePlan (video column_list if_not_exists : Value) : Py.t loc :=
  node CREATE [("video", video); ("column_list", column_list);
               ("if_not_exists", if_not_exists)]%string.

Definition CreateUDFPlan
    (name if_not_exists inputs outputs impl_path udf_type : Value)
  : Py.t loc :=
  node CREATE_UDF [("name", name); ("if_not_exists", if_not_exists);
                   ("inputs", inputs); ("outputs", outputs);
                   ("impl_path", impl_path); ("udf_type", udf_type)]%string.

Definition InsertPlan (video_catalog_id column_list value_list : Value)
  : Py.t loc :=
  node INSERT [("video_catalog_id", video_catalog_id);
               ("column_list", column_list);
               ("value_list", value_list)]%string.

Definition LoadDataPlan (table_metainfo path : Value) : Py.t loc :=
  node LOAD_DATA [("table_metainfo", table_metainfo); ("path", path)]%string.

Definition SeqScanPlan (predicate column_ids : Value) : Py.t loc :=
  node SEQUENTIAL_SCAN [("predicate", predicate);
                        ("output_cols", column_ids)]%string.

Definition StoragePlan (dataset_metadata : Value) : Py.t loc :=
  node STORAGE_PLAN [("metadata", dataset_metadata)]%string.

End Plans.

(** ** Rules *)

(** [class Rule(ABC)]: the two fields set by [__init__] and the three
    abstract methods, one record value per concrete subclass. *)
Module Rule.

Record t : Type := mk {
  rule_type : RuleType;
  pattern : Pattern;
  promise : Promise;
  check : Z → OptimizerContext.t → bool;
  apply : loc → OptimizerContext.t → Py.t loc }.

Definition top_match (self : t) (opr : Operator.t) : bool :=
  bool_decide (Operator.type opr = Patterns.opr_type (pattern self)).

End Rule.

Module EmbedFilterIntoGet.

Definition pattern : Pattern :=
  Patterns.append_child (Patterns.new LOGICALFILTER) (Patterns.new LOGICALGET).

Definition apply (before : loc) (context : OptimizerContext.t) : Py.t loc :=
  let! predicate := Py.getattr before "predicate" in
  let! logical_get := Py.child before 0 in
  do! Py.setattr logical_get "predicate" predicate in
  Py.ret logical_get.

Definition rule : Rule.t :=
  Rule.mk RT_EMBED_FILTER_INTO_GET pattern PR_EMBED_FILTER_INTO_GET
    (λ _ _, true) apply.

End EmbedFilterIntoGet.

Module EmbedProjectIntoGet.

Definition pattern : Pattern :=
  Patterns.append_child (Patterns.new LOGICALPROJECT)
    (Patterns.new LOGICALGET).

Definition apply (before : loc) (context : OptimizerContext.t) : Py.t loc :=
  let! select_list := Py.getattr before "target_list" in
  let! logical_get := Py.child before 0 in
  do! Py.setattr logical_get "target_list" select_list in
  Py.ret logical_get.

Definition rule : Rule.t :=
  Rule.mk RT_EMBED_PROJECT_INTO_GET pattern PR_EMBED_PROJECT_INTO_GET
    (λ _ _, true) apply.

End EmbedProjectIntoGet.

Module LogicalCreateToPhysical.

Definition pattern : Pattern :=
  Patterns.append_child (Patterns.new LOGICALCREATE) (Patterns.new DUMMY).

Definition apply (before : loc) (context : OptimizerContext.t) : Py.t loc :=
  let! video := Py.getattr before "video" in
  let! column_list := Py.getattr before "column_list" in
  let! if_not_exists := Py.getattr before "if_not_exists" in
  let! after := Plans.CreatePlan video column_list if_not_exists in
  Py.ret after.

Definition rule : Rule.t :=
  Rule.mk RT_LOGICAL_CREATE_TO_PHYSICAL pattern PR_LOGICAL_CREATE_TO_PHYSICAL
    (λ _ _, true) apply.

End LogicalCreateToPhysical.

Module LogicalCreateUDFToPhysical.

Definition pattern : Pattern :=
  Patterns.append_child (Patterns.new LOGICALCREATEUDF) (Patterns.new DUMMY).

Definition apply (before : loc) (context : OptimizerContext.t) : Py.t loc :=
  let! name := Py.getattr before "name" in
  let! if_not_exists := Py.getattr before "if_not_exists" in
  let! inputs := Py.getattr before "inputs" in
  let! outputs := Py.getattr before "outputs" in
  let! impl_path := Py.getattr before "impl_path" in
  let! udf_type := Py.getattr before "udf_type" in
  let! after := Plans.CreateUDFPlan name if_not_exists inputs outputs
                  impl_path udf_type in
  Py.ret after.

Definition rule : Rule.t :=
  Rule.mk RT_LOGICAL_CREATE_UDF_TO_PHYSICAL pattern
    PR_LOGICAL_CREATE_UDF_TO_PHYSICAL (λ _ _, true) apply.

End LogicalCreateUDFToPhysical.

Module LogicalInsertToPhysical.

Definition pattern : Pattern :=
  Patterns.append_child (Patterns.new LOGICALINSERT) (Patterns.new DUMMY).

Definition apply (before : loc) (context : OptimizerContext.t) : Py.t loc :=
  let! video_catalog_id := Py.getattr before "video_catalog_id" in
  let! column_list := Py.getattr before "column_list" in
  let! value_list := Py.getattr before "value_list" in
  let! after := Plans.InsertPlan video_catalog_id column_list value_list in
  Py.ret after.

Definition rule : Rule.t :=
  Rule.mk RT_LOGICAL_INSERT_TO_PHYSICAL pattern PR_LOGICAL_INSERT_TO_PHYSICAL
    (λ _ _, true) apply.

End LogicalInsertToPhysical.

Module LogicalLoadToPhysical.

Definition pattern : Pattern :=
  Patterns.append_child (Patterns.new LOGICALLOADDATA) (Patterns.new DUMMY).

Definition apply (before : loc) (context : OptimizerContext.t) : Py.t loc :=
  let! table_metainfo := Py.getattr before "table_metainfo" in
  let! path := Py.getattr before "path" in
  let! after := Plans.LoadDataPlan table_metainfo path in
  Py.ret after.

Definition rule : Rule.t :=
  Rule.mk RT_LOGICAL_LOAD_TO_PHYSICAL pattern PR_LOGICAL_LOAD_TO_PHYSICAL
    (λ _ _, true) apply.

End LogicalLoadToPhysical.

Module LogicalGetToSeqScan.

Definition pattern : Pattern :=
  Patterns.append_child (Patterns.new LOGICALGET) (Patterns.new DUMMY).

Definition apply (before : loc) (context : OptimizerContext.t) : Py.t loc :=
  let! predicate := Py.getattr before "predicate" in
  let! select_list := Py.getattr before "select_list" in
  let! after := Plans.SeqScanPlan predicate select_list in
  let! dataset_metadata := Py.getattr before "dataset_metadata" in
  let! storage := Plans.StoragePlan dataset_metadata in
  do! Py.append_child after storage in
  Py.ret after.

Definition rule : Rule.t :=
  Rule.mk RT_LOGICAL_GET_TO_SEQSCAN pattern PR_LOGICAL_GET_TO_SEQSCAN
    (λ _ _, true) apply.

End LogicalGetToSeqScan.

(** ** The registry *)

Module RulesManager.

Record t : Type := mk {
  rewrite_rules : list Rule.t;
  implementation_rules : list Rule.t }.

(** [RulesManager.__init__]. *)
Definition init : t :=
  mk [ EmbedFilterIntoGet.rule; EmbedProjectIntoGet.rule ]
     [ LogicalCreateToPhysical.rule; LogicalCreateUDFToPhysical.rule;
       LogicalInsertToPhysical.rule; LogicalLoadToPhysical.rule;
       LogicalGetToSeqScan.rule ].

Definition all_rules (m : t) : list Rule.t :=
  rewrite_rules m ++ implementation_rules m.

End RulesManager.

(** The class [RulesManager] as a constructor: the class attribute
    [_instance], the manager objects there are (an object just made by
    [__new__] has no attributes yet), and what the expression
    [RulesManager()] does to them. *)
Module Singleton.

Record state : Type := mk {
  _instance : option loc;
  objects : gmap loc (option RulesManager.t) }.

(** The class as defined: [_instance = None] and no object made. *)
Definition initial : state := mk None ∅.

(** [RulesManager.__new__(cls)]. *)
Definition new (s : state) : loc * state :=
  match _instance s with
  | None =>
    let l := fresh (dom (objects s)) in
    (l, mk (Some l) (<[l := None]> (objects s)))
  | Some l => (l, s)
  end.

(** [RulesManager.__init__(self)]: both lists are assigned anew. *)
Definition init (self : loc) (s : state) : state :=
  mk (_instance s) (<[self := Some RulesManager.init]> (objects s)).

(** [RulesManager()]: [__new__], then [__init__] on what it returned. *)
Definition call (s : state) : loc * state :=
  let '(self, s') := new s in (self, init self s').

(** [n] evaluations of [RulesManager()] in a row, with their results. *)
Fixpoint calls (n : nat) (s : state) : list loc * state :=
  match n with
  | O => ([], s)
  | S n' =>
    let '(l, s') := call s in
    let '(ls, s'') := calls n' s' in (l :: ls, s'')
  end.

(** The properties [rewrite_rules] and [implementation_rules]; [None] when
    the attribute is not there. *)
Definition rewrite_rules (self : loc) (s : state) : option (list Rule.t) :=
  match objects s !! self with
  | Some (Some m) => Some (RulesManager.rewrite_rules m)
  | _ => None
  end.

Definition implementation_rules (self : loc) (s : state)
  : option (list Rule.t) :=
  match objects s !! self with
  | Some (Some m) => Some (RulesManager.implementation_rules m)
  | _ => None
  end.

End Singleton.

(** The four implementation rules that build one plan node, each with the
    node type it builds and the attributes of [before] it reads, in the
    order it reads them. *)
Definition single_node_rules : list (Rule.t * PlanNodeType * list string) :=
  [ (LogicalCreateToPhysical.rule, CREATE,
     ["video"; "column_list"; "if_not_exists"]%string);
    (LogicalCreateUDFToPhysical.rule, CREATE_UDF,
     ["name"; "if_not_exists"; "inputs"; "outputs"; "impl_path";
      "udf_type"]%string);
    (LogicalInsertToPhysical.rule, INSERT,
     ["video_catalog_id"; "column_list"; "value_list"]%string);
    (LogicalLoadToPhysical.rule, LOAD_DATA,
     ["table_metainfo"; "path"]%string) ].

(** Modelled from the spec: the step of the search driver, which is not
    among the sources, that puts the result of [apply] back into the tree:
    child [i] of [parent] becomes [replacement]. *)
Module Driver.

Definition set_child (i : nat) (replacement : loc) (o : Object) : Object :=
  match o with
  | OOperator o =>
    OOperator (Operator.mk (Operator.type o)
                 (<[i := replacement]> (Operator.children o))
                 (Operator.attrs o))
  | OPlan p =>
    OPlan (AbstractPlan.mk (AbstractPlan.node_type p)
             (<[i := replacement]> (AbstractPlan.children p))
             (AbstractPlan.attrs p))
  end.

Definition reinsert (parent : loc) (i : nat) (replacement : loc) : Py.t unit :=
  λ h, match h !! parent with
       | None => None
       | Some o => Some (tt, <[parent := set_child i replacement o]> h)
       end.

End Driver.
(** What a caller that still holds the input can observe. *)
Module Store.

(** Every object of the store [h] is in [h'] as it was. *)
Definition unchanged (h h' : gmap loc Object) : Prop :=
  ∀ l, l ∈ dom h → h' !! l = h !! l.

(** [after] is a plan node that was built during the call, and so were its
    children. *)
Definition newly_built (h h' : gmap loc Object) (after : loc) : Prop :=
  (after ∉ dom h)
  ∧ ∃ p, h' !! after = Some (OPlan p)
         ∧ ∀ c, c ∈ AbstractPlan.children p → c ∉ dom h.

End Store.

(** ** Sample inputs *)

Module Samples.

(** A memo of three groups: group 0 holds a filter over group 1, group 1
    holds a childless get, group 2 holds no expression yet. *)
Definition filter_expr : GroupExpression.t :=
  GroupExpression.mk (Operator.mk LOGICALFILTER [] ∅) [1].

Definition get_expr : GroupExpression.t :=
  GroupExpression.mk (Operator.mk LOGICALGET [] ∅) [].

Definition context : OptimizerContext.t :=
  OptimizerContext.mk
    (Memo.mk (<[0 := Group.mk (Some filter_expr)]>
              (<[1 := Group.mk (Some get_expr)]>
               (<[2 := Group.mk None]> ∅)))).


(** A store holding the tree Project(Filter(Get())): the project at
    address 10 carries the column list 101, the filter at 11 the predicate
    100, the get at 12 the dataset metadata 103 and nothing pushed down
    yet. *)
Definition project_node : Object :=
  OOperator (Operator.mk LOGICALPROJECT [11%nat]
               (list_to_map [("target_list", VRef 101)]%string)).

Definition filter_node : Object :=
  OOperator (Operator.mk LOGICALFILTER [12%nat]
               (list_to_map [("predicate", VRef 100)]%string)).

Definition get_node : Object :=
  OOperator (Operator.mk LOGICALGET []
               (list_to_map [("predicate", VNone); ("target_list", VNone);
                             ("dataset_metadata", VRef 103)]%string)).

Definition heap : gmap loc Object :=
  <[10%nat := project_node]>
    (<[11%nat := filter_node]> (<[12%nat := get_node]> ∅)).

(** A get after both pushdowns: predicate 100 and column list 101 in the
    slots the rewrite rules write, and the slot [select_list] either
    missing or still [None]. *)
Definition pushed_get (select_list : option Value) : Object :=
  OOperator (Operator.mk LOGICALGET []
               (list_to_map
                  ([("predicate", VRef 100); ("target_list", VRef 101);
                    ("dataset_metadata", VRef 103)]%string
                   ++ match select_list with
                      | Some v => [("select_list"%string, v)]
                      | None => []
                      end))).

Definition pushed_heap (select_list : option Value) : gmap loc Object :=
  <[12%nat := pushed_get select_list]> ∅.

(** A store holding the tree Project(Get()): the project at address 10
    carries the column list 101; the get at 12 carries the predicate 100
    and the metadata 103, and both of its column slots are still [None]. *)
Definition project_over_get : gmap loc Object :=
  <[10%nat := OOperator (Operator.mk LOGICALPROJECT [12%nat]
                           (list_to_map [("target_list", VRef 101)]%string))]>
    (<[12%nat := OOperator (Operator.mk LOGICALGET []
                              (list_to_map
                                 [("predicate", VRef 100);
                                  ("target_list", VNone);
                                  ("select_list", VNone);
                                  ("dataset_metadata", VRef 103)]%string))]>
       ∅).

(** A store in which the project at address 10 and the two filters at 11
    and 13 all have the get at 12 as their first child. *)
Definition shared_heap : gmap loc Object :=
  <[10%nat := OOperator (Operator.mk LOGICALPROJECT [12%nat]
                           (list_to_map [("target_list", VRef 101)]%string))]>
    (<[11%nat := filter_node]>
       (<[13%nat := OOperator (Operator.mk LOGICALFILTER [12%nat]
                                 (list_to_map
                                    [("predicate", VRef 106)]%string))]>
          (<[12%nat := get_node]> ∅))).

(** A create operator, for the rules that build a single plan node. *)
Definition create_node : Object :=
  OOperator (Operator.mk LOGICALCREATE []
               (list_to_map [("video", VRef 104); ("column_list", VRef 105);
                             ("if_not_exists", VBool true)]%string)).

Definition create_heap : gmap loc Object := <[20%nat := create_node]> ∅.

End Samples.

(** * Properties *)

Example RuleType_values :
  RuleTypes.value <$> RuleTypes.members = [1; 2; 4; 8; 16; 32; 64; 128; 256].
Proof. reflexivity. Qed.

Example Promise_values :
  Promises.value <$> Promises.members = [1; 2; 4; 8; 16; 32; 64; 128; 256].
Proof. reflexivity. Qed.

Example RuleType_members_indexed :
  imap (λ i t, (i, RuleTypes.index t)) RuleTypes.members
  = imap (λ i _, (i, i)) RuleTypes.members.
Proof. reflexivity. Qed.

Example Promise_members_indexed :
  imap (λ i p, (i, Promises.index p)) Promises.members
  = imap (λ i _, (i, i)) Promises.members.
Proof. reflexivity. Qed.

(** ** The enumerations *)

Lemma RuleType_value_pow2 (t : RuleType) :
  RuleTypes.value t = 2 ^ Z.of_nat (RuleTypes.index t).
Proof. by destruct t. Qed.

Lemma RuleType_index_inj (t1 t2 : RuleType) :
  RuleTypes.index t1 = RuleTypes.index t2 → t1 = t2.
Proof. by destruct t1, t2. Qed.

Lemma RuleType_testbit (t : RuleType) (i : Z) :
  Z.testbit (RuleTypes.value t) i
  = bool_decide (i = Z.of_nat (RuleTypes.index t)).
Proof.
  rewrite RuleType_value_pow2, Z.pow2_bits_eqb by lia.
  case_bool_decide; [apply Z.eqb_eq | apply Z.eqb_neq]; lia.
Qed.

Lemma RuleType_land_same (t : RuleType) :
  Z.land (RuleTypes.value t) (RuleTypes.value t) ≠ 0.
Proof. rewrite Z.land_diag. by destruct t. Qed.

Lemma RuleType_land_other (t1 t2 : RuleType) :
  t1 ≠ t2 → Z.land (RuleTypes.value t1) (RuleTypes.value t2) = 0.
Proof.
  intros Hne. apply Z.bits_inj'. intros i _.
  rewrite Z.land_spec, !RuleType_testbit, Z.bits_0.
  repeat case_bool_decide; try done.
  destruct Hne. apply RuleType_index_inj. lia.
Qed.

Lemma RuleType_selected_mask (ts : list RuleType) (t : RuleType) :
  RuleTypes.selected (RuleTypes.mask_of ts) t = true ↔ t ∈ ts.
Proof.
  unfold RuleTypes.selected. rewrite negb_true_iff, Z.eqb_neq.
  induction ts as [|a ts IH]; simpl.
  - rewrite Z.land_0_l. split; [done | by intros ?%elem_of_nil].
  - rewrite Z.land_lor_distr_l, Z.lor_eq_0_iff, elem_of_cons, <- IH.
    destruct (decide (t = a)) as [->|Hne].
    + split; [by left | intros _ [? _]]. by apply (RuleType_land_same a).
    + rewrite RuleType_land_other by done. tauto.
Qed.

(** C9. Every member of [RuleType], the two delimiters included, is a power
    of two with exactly one bit set, no two members are equal or share a
    bit, and so a mask or-ed together from any members selects exactly
    those members. *)
Theorem RuleType_members_are_independent_bits :
  (∀ t, RuleTypes.value t = 2 ^ Z.of_nat (RuleTypes.index t))
  ∧ (∀ t i, Z.testbit (RuleTypes.value t) i = true
            ↔ i = Z.of_nat (RuleTypes.index t))
  ∧ (∀ t1 t2, t1 ≠ t2 →
       RuleTypes.value t1 ≠ RuleTypes.value t2
       ∧ Z.land (RuleTypes.value t1) (RuleTypes.value t2) = 0)
  ∧ (∀ ts t, RuleTypes.selected (RuleTypes.mask_of ts) t = true ↔ t ∈ ts).
Proof.
  split_and!.
  - apply RuleType_value_pow2.
  - intros t i. rewrite RuleType_testbit. apply bool_decide_eq_true.
  - intros t1 t2 Hne. split; [|by apply RuleType_land_other].
    intros Heq. apply (RuleType_land_same t1).
    rewrite Heq at 2. by apply RuleType_land_other.
  - apply RuleType_selected_mask.
Qed.

(** ** The registry *)

Lemma rewrite_rules_inv (r : Rule.t) :
  r ∈ RulesManager.rewrite_rules RulesManager.init →
  r = EmbedFilterIntoGet.rule ∨ r = EmbedProjectIntoGet.rule.
Proof. simpl. rewrite !elem_of_cons, elem_of_nil. tauto. Qed.

Lemma implementation_rules_inv (r : Rule.t) :
  r ∈ RulesManager.implementation_rules RulesManager.init →
  r = LogicalCreateToPhysical.rule ∨ r = LogicalCreateUDFToPhysical.rule
  ∨ r = LogicalInsertToPhysical.rule ∨ r = LogicalLoadToPhysical.rule
  ∨ r = LogicalGetToSeqScan.rule.
Proof. simpl. rewrite !elem_of_cons, elem_of_nil. tauto. Qed.

Lemma rewrite_rule_type (r : Rule.t) :
  r ∈ RulesManager.rewrite_rules RulesManager.init →
  RuleTypes.value (Rule.rule_type r) < RuleTypes.value RT_REWRITE_DELIMETER.
Proof. by intros [-> | ->]%rewrite_rules_inv. Qed.

Lemma implementation_rule_type (r : Rule.t) :
  r ∈ RulesManager.implementation_rules RulesManager.init →
  RuleTypes.value RT_REWRITE_DELIMETER < RuleTypes.value (Rule.rule_type r)
  < RuleTypes.value RT_IMPLEMENTATION_DELIMETER.
Proof.
  by intros [-> | [-> | [-> | [-> | ->]]]]%implementation_rules_inv.
Qed.

(** C6. For every rule of the registry: its [rule_type] is below
    [REWRITE_DELIMETER] exactly when it is a rewrite rule, strictly between
    the two delimiters exactly when it is an implementation rule, and it is
    in one of the two ranges. *)
Theorem registry_classification (r : Rule.t) :
  r ∈ RulesManager.all_rules RulesManager.init →
  let v := RuleTypes.value (Rule.rule_type r) in
  let rewrite_delimeter := RuleTypes.value RT_REWRITE_DELIMETER in
  let implementation_delimeter :=
    RuleTypes.value RT_IMPLEMENTATION_DELIMETER in
  (v < rewrite_delimeter
   ↔ r ∈ RulesManager.rewrite_rules RulesManager.init)
  ∧ (rewrite_delimeter < v < implementation_delimeter
     ↔ r ∈ RulesManager.implementation_rules RulesManager.init)
  ∧ (v < rewrite_delimeter
     ∨ rewrite_delimeter < v < implementation_delimeter).
Proof.
  unfold RulesManager.all_rules. rewrite elem_of_app.
  intros [Hr | Hi]; cbv zeta.
  - pose proof (rewrite_rule_type r Hr) as Hlt. split_and!.
    + done.
    + split; [lia | intros Hi].
      pose proof (implementation_rule_type r Hi). lia.
    + by left.
  - pose proof (implementation_rule_type r Hi) as Hbetween. split_and!.
    + split; [lia | intros Hr].
      pose proof (rewrite_rule_type r Hr). lia.
    + done.
    + by right.
Qed.

Lemma registry_classification_witness :
  let r := LogicalGetToSeqScan.rule in
  let v := RuleTypes.value (Rule.rule_type r) in
  (v < RuleTypes.value RT_REWRITE_DELIMETER
   ↔ r ∈ RulesManager.rewrite_rules RulesManager.init)
  ∧ (RuleTypes.value RT_REWRITE_DELIMETER < v
     < RuleTypes.value RT_IMPLEMENTATION_DELIMETER
     ↔ r ∈ RulesManager.implementation_rules RulesManager.init)
  ∧ (v < RuleTypes.value RT_REWRITE_DELIMETER
     ∨ RuleTypes.value RT_REWRITE_DELIMETER < v
       < RuleTypes.value RT_IMPLEMENTATION_DELIMETER).
Proof.
  apply (registry_classification LogicalGetToSeqScan.rule).
  unfold RulesManager.all_rules. simpl. rewrite !elem_of_cons. tauto.
Defined.

(** C10. In the registry every rewrite rule promises strictly more than
    every implementation rule: [Promise] lists the implementation rules
    first, so all their values lie below [EMBED_FILTER_INTO_GET], the
    lowest rewrite value. *)
Theorem rewrite_promise_above_implementation (r i : Rule.t) :
  r ∈ RulesManager.rewrite_rules RulesManager.init →
  i ∈ RulesManager.implementation_rules RulesManager.init →
  Promises.value (Rule.promise i) < Promises.value PR_EMBED_FILTER_INTO_GET
  ∧ Promises.value PR_EMBED_FILTER_INTO_GET ≤ Promises.value (Rule.promise r)
  ∧ Promises.value (Rule.promise r) > Promises.value (Rule.promise i).
Proof.
  intros [-> | ->]%rewrite_rules_inv
         [-> | [-> | [-> | [-> | ->]]]]%implementation_rules_inv;
    vm_compute; split_and!; congruence.
Qed.

Lemma rewrite_promise_above_implementation_witness :
  Promises.value PR_LOGICAL_GET_TO_SEQSCAN
  < Promises.value PR_EMBED_FILTER_INTO_GET
  ∧ Promises.value PR_EMBED_FILTER_INTO_GET
    ≤ Promises.value PR_EMBED_FILTER_INTO_GET
  ∧ Promises.value PR_EMBED_FILTER_INTO_GET
    > Promises.value PR_LOGICAL_GET_TO_SEQSCAN.
Proof.
  apply (rewrite_promise_above_implementation
           EmbedFilterIntoGet.rule LogicalGetToSeqScan.rule);
    simpl; rewrite !elem_of_cons; tauto.
Defined.

(** ** The matcher *)

Section matcher.

Context (context : OptimizerContext.t).

Local Abbreviation get_group :=
  (Memo.get_group (OptimizerContext.memo context)).
Local Abbreviation matches := (Matching.compare_expr_with_pattern context).

Lemma compare_loop_eq (ids : list Z) (pats : list Pattern) (b : bool) :
  (fix loop (ids : list Z) (pats : list Pattern) (is_equal : bool)
      {struct pats} : option bool :=
     match ids, pats with
     | child_id :: ids', pattern_child :: pats' =>
       match matches child_id pattern_child with
       | None => None
       | Some r => loop ids' pats' (is_equal && r)
       end
     | _, _ => Some is_equal
     end) ids pats b
  = Matching.compare_children context ids pats b.
Proof.
  revert ids b. induction pats as [|q pats IH]; intros [|c ids] b; try done.
  simpl. destruct (matches c q); [apply IH | done].
Qed.

(** One unfolding of the matcher, with the loop named. *)
Lemma compare_expr_with_pattern_unfold (grp_id : Z) (pattern : Pattern) :
  matches grp_id pattern
  = match get_group grp_id with
    | None => None
    | Some grp =>
      match Group.get_logical_expr grp with
      | None => Some false
      | Some grp_expr =>
        if Matching.root_differs grp_expr pattern then Some false
        else Matching.compare_children context
               (GroupExpression.children grp_expr)
               (Patterns.children pattern) true
      end
    end.
Proof.
  destruct pattern as [t pats]. simpl.
  destruct (get_group grp_id) as [grp|]; [|done].
  destruct (Group.get_logical_expr grp) as [e|]; [|done].
  destruct (Matching.root_differs e (mkPattern t pats)); [done|].
  apply compare_loop_eq.
Qed.

Lemma root_differs_false (e : GroupExpression.t) (p : Pattern) :
  Matching.root_differs e p = false
  ↔ Operator.type (GroupExpression.opr e) = Patterns.opr_type p
    ∧ length (GroupExpression.children e) = length (Patterns.children p).
Proof.
  unfold Matching.root_differs.
  rewrite orb_false_iff, !bool_decide_eq_false.
  split; intros [H1 H2]; split; try (by intros ?);
    [by destruct (decide (Operator.type (GroupExpression.opr e)
                          = Patterns.opr_type p)) | lia].
Qed.

(** The loop never turns a [False] back into [True]. *)
Lemma compare_children_false (ids : list Z) (pats : list Pattern) :
  Matching.compare_children context ids pats false ≠ Some true.
Proof.
  revert ids. induction pats as [|q pats IH]; intros [|c ids]; try done.
  simpl. destruct (matches c q); [apply IH | done].
Qed.

Lemma compare_children_true (ids : list Z) (pats : list Pattern) (b : bool) :
  length ids = length pats →
  Matching.compare_children context ids pats b = Some true
  ↔ b = true ∧ Forall2 (λ c q, matches c q = Some true) ids pats.
Proof.
  revert pats b. induction ids as [|c ids IH]; intros [|q pats] b Hlen;
    try done; simpl.
  - split; [intros [= ->]; by split | by intros [-> _]].
  - injection Hlen as Hlen. destruct (matches c q) as [[]|] eqn:Hcq.
    + rewrite andb_true_r, IH by done.
      split; [intros [-> ?]; split; [done | by constructor]|].
      by intros [-> [_ ?]%Forall2_cons_1].
    + rewrite andb_false_r. split.
      * by intros ?%compare_children_false.
      * intros [_ [? _]%Forall2_cons_1]. congruence.
    + split; [done|].
      intros [_ [? _]%Forall2_cons_1]. congruence.
Qed.

(** The loop returns as soon as every child lookup does: all the children
    are compared, none is skipped. *)
Lemma compare_children_returns (ids : list Z) (pats : list Pattern) (b : bool) :
  Forall2 (λ c q, is_Some (matches c q)) ids pats →
  is_Some (Matching.compare_children context ids pats b).
Proof.
  intros Hall. revert b.
  induction Hall as [|c q ids pats [r Hr] _ IH]; intros b; simpl; [done|].
  rewrite Hr. apply IH.
Qed.

(** C1, as the code has it. The matcher returns [True] exactly when the
    group holds a logical expression whose operator tag equals the
    pattern's tag, whose child-group count equals the pattern's child
    count, and whose children match the child patterns pairwise. No tag is
    a wildcard: a pattern tagged [DUMMY] matches only an expression tagged
    [DUMMY]. *)
Theorem compare_expr_with_pattern_true_iff (grp_id : Z) (pattern : Pattern) :
  matches grp_id pattern = Some true
  ↔ ∃ grp grp_expr,
      get_group grp_id = Some grp
      ∧ Group.get_logical_expr grp = Some grp_expr
      ∧ Operator.type (GroupExpression.opr grp_expr)
        = Patterns.opr_type pattern
      ∧ length (GroupExpression.children grp_expr)
        = length (Patterns.children pattern)
      ∧ Forall2 (λ child_id pattern_child,
                   matches child_id pattern_child = Some true)
          (GroupExpression.children grp_expr) (Patterns.children pattern).
Proof.
  rewrite compare_expr_with_pattern_unfold. split.
  - destruct (get_group grp_id) as [grp|]; [|done].
    destruct (Group.get_logical_expr grp) as [e|] eqn:He; [|done].
    destruct (Matching.root_differs e pattern) eqn:Hroot; [done|].
    apply root_differs_false in Hroot as [Htag Hlen].
    intros [_ Hall]%compare_children_true; [|done].
    by exists grp, e.
  - intros (grp & e & -> & -> & Htag & Hlen & Hall).
    assert (Matching.root_differs e pattern = false) as ->
      by by apply root_differs_false.
    by apply compare_children_true.
Qed.

(** C4. A group that holds no logical expression is an ordinary non-match:
    the matcher returns [False], it does not raise, whatever the pattern's
    tag is, [DUMMY] included. *)
Theorem compare_expr_with_pattern_empty_group
    (grp_id : Z) (pattern : Pattern) (grp : Group.t) :
  get_group grp_id = Some grp →
  Group.get_logical_expr grp = None →
  matches grp_id pattern = Some false.
Proof.
  intros Hgrp Hnone. rewrite compare_expr_with_pattern_unfold.
  by rewrite Hgrp, Hnone.
Qed.

(** C3, as the code has it. For a pattern without children and a group
    whose expression passes the tag comparison, the matcher returns [True]
    when the expression has no child groups and [False] when it has any:
    the child counts are compared before anything else is looked at. *)
Theorem compare_expr_with_leaf_pattern
    (grp_id : Z) (pattern : Pattern) (grp : Group.t)
    (grp_expr : GroupExpression.t) :
  get_group grp_id = Some grp →
  Group.get_logical_expr grp = Some grp_expr →
  Patterns.children pattern = [] →
  Operator.type (GroupExpression.opr grp_expr) = Patterns.opr_type pattern →
  matches grp_id pattern
  = Some (bool_decide (GroupExpression.children grp_expr = [])).
Proof.
  intros Hgrp Hexpr Hleaf Htag. rewrite compare_expr_with_pattern_unfold.
  rewrite Hgrp, Hexpr. unfold Matching.root_differs.
  rewrite Hleaf, Htag.
  rewrite (bool_decide_eq_false_2 (_ ≠ _)) by (by intros []).
  by destruct (GroupExpression.children grp_expr).
Qed.

(** C5. [top_match] makes the tag comparison of the matcher's root-level
    test, and nothing else: the root-level test is that comparison plus the
    child count. So a node whose expression passes the root-level test, or
    matches in full, passes [top_match], a node that fails [top_match]
    never matches, and in both places [DUMMY] is a tag like any other. *)
Theorem top_match_agrees_with_root_check
    (r : Rule.t) (grp_id : Z) (grp : Group.t) (grp_expr : GroupExpression.t) :
  get_group grp_id = Some grp →
  Group.get_logical_expr grp = Some grp_expr →
  let opr := GroupExpression.opr grp_expr in
  Matching.root_differs grp_expr (Rule.pattern r)
  = negb (Rule.top_match r opr)
    || bool_decide (length (GroupExpression.children grp_expr)
                    ≠ length (Patterns.children (Rule.pattern r)))
  ∧ (Matching.root_differs grp_expr (Rule.pattern r) = false →
     Rule.top_match r opr = true)
  ∧ (matches grp_id (Rule.pattern r) = Some true →
     Rule.top_match r opr = true)
  ∧ (Rule.top_match r opr = false →
     matches grp_id (Rule.pattern r) = Some false)
  ∧ (Rule.top_match r opr = true
     ↔ Operator.type opr = Patterns.opr_type (Rule.pattern r)).
Proof.
  intros Hgrp Hexpr opr.
  assert (Matching.root_differs grp_expr (Rule.pattern r)
          = negb (Rule.top_match r opr)
            || bool_decide (length (GroupExpression.children grp_expr)
                            ≠ length (Patterns.children (Rule.pattern r))))
    as Hroot.
  { unfold Matching.root_differs, Rule.top_match, opr.
    f_equal. by repeat case_bool_decide. }
  split_and!.
  - done.
  - rewrite Hroot. intros [Htop _]%orb_false_iff.
    by apply negb_false_iff.
  - rewrite compare_expr_with_pattern_unfold, Hgrp, Hexpr, Hroot.
    by destruct (Rule.top_match r opr).
  - rewrite compare_expr_with_pattern_unfold, Hgrp, Hexpr, Hroot.
    by intros ->.
  - apply bool_decide_eq_true.
Qed.

End matcher.

(** Induction on patterns, with the hypothesis for every child. *)
Lemma Pattern_nested_ind (P : Pattern → Prop) :
  (∀ tag pats, Forall P pats → P (mkPattern tag pats)) → ∀ p, P p.
Proof.
  intros Hnode. fix IH 1. intros [tag pats]. apply Hnode.
  induction pats as [|q pats IHpats]; constructor; [apply IH | apply IHpats].
Qed.

Section matcher_and_specification.

Context (context : OptimizerContext.t).

Local Abbreviation get_group :=
  (Memo.get_group (OptimizerContext.memo context)).
Local Abbreviation matches := (Matching.compare_expr_with_pattern context).

(** On a closed memo the matcher returns for every stored group id and
    every pattern: it raises only on an id the memo does not know. *)
Lemma compare_expr_with_pattern_returns (pattern : Pattern) :
  Matching.closed context →
  ∀ grp_id, is_Some (get_group grp_id) → is_Some (matches grp_id pattern).
Proof.
  intros Hclosed.
  induction pattern as [tag pats IH] using Pattern_nested_ind.
  intros grp_id [grp Hgrp]. rewrite compare_expr_with_pattern_unfold, Hgrp.
  destruct (Group.get_logical_expr grp) as [e|] eqn:He; [|done].
  destruct (Matching.root_differs e (mkPattern tag pats)) eqn:Hroot; [done|].
  apply root_differs_false in Hroot as [_ Hlen]. simpl in Hlen.
  apply compare_children_returns.
  assert (∀ c, c ∈ GroupExpression.children e → is_Some (get_group c))
    as Hids by (intros c Hc; by eapply Hclosed).
  clear He. revert Hlen Hids. simpl.
  generalize (GroupExpression.children e) as ids.
  induction IH as [|q pats Hq _ IHpats]; intros [|c ids] Hlen Hids;
    try done; constructor.
  - apply Hq, Hids. by left.
  - apply IHpats; [by injection Hlen|]. intros c' Hc'. apply Hids. by right.
Qed.

Lemma deep_match_spec_unfold (grp_id : Z) (p : Pattern) :
  Matching.deep_match_spec context grp_id p
  = match get_group grp_id with
    | None => false
    | Some grp =>
      match Group.get_logical_expr grp with
      | None => false
      | Some e =>
        (bool_decide (Operator.type (GroupExpression.opr e)
                      = Patterns.opr_type p)
         || bool_decide (Patterns.opr_type p = DUMMY))
        && bool_decide (length (GroupExpression.children e)
                        = length (Patterns.children p))
        && Matching.all_match_spec context
             (GroupExpression.children e) (Patterns.children p)
      end
    end.
Proof.
  destruct p as [tag pats]. simpl.
  destruct (get_group grp_id) as [grp|]; [|done].
  destruct (Group.get_logical_expr grp) as [e|]; [|done].
  f_equal. generalize (GroupExpression.children e) as ids.
  induction pats as [|q pats IH]; intros [|c ids]; try done.
  simpl. by rewrite IH.
Qed.

(** Away from the wildcard the code and the specification's matcher are
    one: on a pattern without [DUMMY] tags the code returns [True] exactly
    when the specification's matcher succeeds. *)
Lemma compare_expr_with_pattern_refines_spec (pattern : Pattern) :
  Matching.dummy_free pattern = true →
  ∀ grp_id,
    matches grp_id pattern = Some true
    ↔ Matching.deep_match_spec context grp_id pattern = true.
Proof.
  induction pattern as [tag pats IH] using Pattern_nested_ind.
  intros Hfree grp_id. simpl in Hfree.
  apply andb_true_iff in Hfree as [Htag Hfree].
  apply bool_decide_eq_true in Htag.
  rewrite compare_expr_with_pattern_unfold, deep_match_spec_unfold.
  destruct (get_group grp_id) as [grp|]; [|done].
  destruct (Group.get_logical_expr grp) as [e|]; [|done].
  unfold Matching.root_differs. simpl.
  rewrite (bool_decide_eq_false_2 (tag = DUMMY)), orb_false_r by done.
  destruct (decide (Operator.type (GroupExpression.opr e) = tag)) as [Ht|Ht].
  2:{ rewrite (bool_decide_eq_true_2 (_ ≠ tag)) by done.
      by rewrite (bool_decide_eq_false_2 (_ = tag)) by done. }
  rewrite (bool_decide_eq_false_2 (_ ≠ tag)) by (by intros []).
  rewrite (bool_decide_eq_true_2 (_ = tag)) by done.
  destruct (decide (length (GroupExpression.children e) = length pats))
    as [Hlen|Hlen].
  2:{ rewrite (bool_decide_eq_true_2 (_ ≠ length pats)) by done.
      by rewrite (bool_decide_eq_false_2 (_ = length pats)) by done. }
  rewrite (bool_decide_eq_false_2 (_ ≠ length pats)) by (by intros []).
  rewrite (bool_decide_eq_true_2 (_ = length pats)) by done.
  simpl. rewrite compare_children_true by done.
  revert Hlen Hfree. generalize (GroupExpression.children e) as ids.
  induction IH as [|q pats Hq _ IHpats]; intros [|c ids] Hlen Hfree;
    try done.
  simpl in Hfree. apply andb_true_iff in Hfree as [Hfq Hfree].
  injection Hlen as Hlen. simpl. rewrite andb_true_iff.
  rewrite <- (Hq Hfq c). specialize (IHpats ids Hlen Hfree).
  split.
  - intros [_ [Hc Hall]%Forall2_cons_1]. split; [done|].
    apply IHpats. by split.
  - intros [Hc Hall]. split; [done|]. constructor; [done|].
    by apply IHpats.
Qed.

End matcher_and_specification.

(** C1, refuted as stated: for the pattern [Pattern(DUMMY)] and a group
    holding a childless get, the matcher the specification describes
    succeeds (the pattern's tag is the wildcard and both child counts are
    zero) while the code returns [False]. *)
Lemma wildcard_pattern_does_not_match :
  ¬ (Matching.compare_expr_with_pattern Samples.context 1
       (Patterns.new DUMMY) = Some true
     ↔ Matching.deep_match_spec Samples.context 1 (Patterns.new DUMMY)
       = true).
Proof.
  assert (Matching.compare_expr_with_pattern Samples.context 1
            (Patterns.new DUMMY) = Some false) as -> by by vm_compute.
  assert (Matching.deep_match_spec Samples.context 1 (Patterns.new DUMMY)
          = true) as -> by by vm_compute.
  intros [_ H]. by specialize (H eq_refl).
Qed.

(** C3, refuted as stated: the pattern [Pattern(LOGICALFILTER)] has no
    children and group 0 holds a filter, so the tag comparison passes, yet
    the matcher returns [False] because the filter has one child group. *)
Lemma leaf_pattern_rejects_expression_with_children :
  Patterns.children (Patterns.new LOGICALFILTER) = []
  ∧ Memo.get_group (OptimizerContext.memo Samples.context) 0
    = Some (Group.mk (Some Samples.filter_expr))
  ∧ Operator.type (GroupExpression.opr Samples.filter_expr)
    = Patterns.opr_type (Patterns.new LOGICALFILTER)
  ∧ Matching.compare_expr_with_pattern Samples.context 0
      (Patterns.new LOGICALFILTER) ≠ Some true.
Proof. split_and!; by vm_compute. Qed.

Lemma compare_expr_with_pattern_empty_group_witness :
  Matching.compare_expr_with_pattern Samples.context 2 (Patterns.new DUMMY)
  = Some false.
Proof.
  apply (compare_expr_with_pattern_empty_group Samples.context 2
           (Patterns.new DUMMY) (Group.mk None)); reflexivity.
Defined.

Lemma compare_expr_with_leaf_pattern_witness :
  Matching.compare_expr_with_pattern Samples.context 0
    (Patterns.new LOGICALFILTER)
  = Some (bool_decide (GroupExpression.children Samples.filter_expr = [])).
Proof.
  apply (compare_expr_with_leaf_pattern Samples.context 0
           (Patterns.new LOGICALFILTER) (Group.mk (Some Samples.filter_expr))
           Samples.filter_expr); reflexivity.
Defined.

Lemma top_match_agrees_with_root_check_witness :
  let r := EmbedFilterIntoGet.rule in
  let grp_expr := Samples.filter_expr in
  let opr := GroupExpression.opr grp_expr in
  Matching.root_differs grp_expr (Rule.pattern r)
  = negb (Rule.top_match r opr)
    || bool_decide (length (GroupExpression.children grp_expr)
                    ≠ length (Patterns.children (Rule.pattern r)))
  ∧ (Matching.root_differs grp_expr (Rule.pattern r) = false →
     Rule.top_match r opr = true)
  ∧ (Matching.compare_expr_with_pattern Samples.context 0 (Rule.pattern r)
     = Some true →
     Rule.top_match r opr = true)
  ∧ (Rule.top_match r opr = false →
     Matching.compare_expr_with_pattern Samples.context 0 (Rule.pattern r)
     = Some false)
  ∧ (Rule.top_match r opr = true
     ↔ Operator.type opr = Patterns.opr_type (Rule.pattern r)).
Proof.
  apply (top_match_agrees_with_root_check Samples.context
           EmbedFilterIntoGet.rule 0 (Group.mk (Some Samples.filter_expr))
           Samples.filter_expr); reflexivity.
Defined.

(** The filter-over-get pattern matches the sample memo at group 0 and the
    matcher and [top_match] agree there. *)
Example filter_over_get_matches :
  Matching.compare_expr_with_pattern Samples.context 0
    EmbedFilterIntoGet.pattern = Some true
  ∧ Rule.top_match EmbedFilterIntoGet.rule
      (GroupExpression.opr Samples.filter_expr) = true
  ∧ Matching.compare_expr_with_pattern Samples.context 0
      EmbedProjectIntoGet.pattern = Some false
  ∧ Matching.compare_expr_with_pattern Samples.context 1
      LogicalGetToSeqScan.pattern = Some false
  ∧ Matching.compare_expr_with_pattern Samples.context 7
      LogicalGetToSeqScan.pattern = None.
Proof. split_and!; reflexivity. Qed.

(** ** The object store *)

Section store.

Implicit Types (h : gmap loc Object) (l : loc) (o : Object).

Lemma bind_Some {A B} (m : Py.t A) (k : A → Py.t B) h (b : B) h' :
  Py.bind m k h = Some (b, h')
  ↔ ∃ a h1, m h = Some (a, h1) ∧ k a h1 = Some (b, h').
Proof.
  unfold Py.bind. destruct (m h) as [[a h1]|]; [|naive_solver].
  split; [by exists a, h1 | by intros (? & ? & [= -> ->] & ?)].
Qed.

Lemma ret_Some {A} (a b : A) h h' :
  Py.ret a h = Some (b, h') ↔ b = a ∧ h' = h.
Proof. unfold Py.ret. naive_solver. Qed.

Lemma getattr_Some l (name : string) h (v : Value) h' :
  Py.getattr l name h = Some (v, h')
  ↔ h' = h ∧ ∃ o, h !! l = Some o ∧ Obj.attrs o !! name = Some v.
Proof.
  unfold Py.getattr. destruct (h !! l) as [o|]; [|naive_solver].
  destruct (Obj.attrs o !! name) eqn:?; naive_solver.
Qed.

Lemma child_Some l (i : nat) h (c : loc) h' :
  Py.child l i h = Some (c, h')
  ↔ h' = h ∧ ∃ o, h !! l = Some o ∧ Obj.children o !! i = Some c.
Proof.
  unfold Py.child. destruct (h !! l) as [o|]; [|naive_solver].
  destruct (Obj.children o !! i) eqn:?; naive_solver.
Qed.

Lemma setattr_Some l (name : string) (v : Value) h (u : unit) h' :
  Py.setattr l name v h = Some (u, h')
  ↔ ∃ o, h !! l = Some o ∧ h' = <[l := Obj.set_attr name v o]> h.
Proof.
  unfold Py.setattr. destruct (h !! l) as [o|]; [|naive_solver].
  destruct u. naive_solver.
Qed.

Lemma append_child_Some l (c : loc) h (u : unit) h' :
  Py.append_child l c h = Some (u, h')
  ↔ ∃ o, h !! l = Some o ∧ h' = <[l := Obj.add_child c o]> h.
Proof.
  unfold Py.append_child. destruct (h !! l) as [o|]; [|naive_solver].
  destruct u. naive_solver.
Qed.

Lemma new_Some o h l h' :
  Py.new o h = Some (l, h') ↔ l = fresh (dom h) ∧ h' = <[l := o]> h.
Proof. unfold Py.new. naive_solver. Qed.

Lemma fresh_not_in_store h : fresh (dom h) ∉ dom h.
Proof. apply is_fresh. Qed.

Lemma unchanged_insert_new h l o : l ∉ dom h → Store.unchanged h (<[l := o]> h).
Proof.
  intros Hl k Hk. apply lookup_insert_ne. by intros ->.
Qed.

Lemma unchanged_trans h1 h2 h3 :
  Store.unchanged h1 h2 → Store.unchanged h2 h3 → Store.unchanged h1 h3.
Proof.
  intros H12 H23 l Hl. rewrite <- (H12 l Hl). apply H23.
  apply elem_of_dom. rewrite (H12 l Hl). by apply elem_of_dom.
Qed.

End store.

(** Takes a successful run of straight-line store code apart, one
    statement at a time. *)
Ltac py_inv :=
  repeat match goal with
  | H : Py.bind _ _ _ = Some _ |- _ =>
    apply bind_Some in H as (? & ? & ? & H)
  | H : Py.ret _ _ = Some _ |- _ => apply ret_Some in H as [-> ->]
  | H : Py.getattr _ _ _ = Some _ |- _ =>
    apply getattr_Some in H as [-> (? & ? & ?)]
  | H : Py.child _ _ _ = Some _ |- _ =>
    apply child_Some in H as [-> (? & ? & ?)]
  | H : Py.setattr _ _ _ _ = Some _ |- _ =>
    apply setattr_Some in H as (? & ? & ->)
  | H : Py.append_child _ _ _ = Some _ |- _ =>
    apply append_child_Some in H as (? & ? & ->)
  | H : Plans.node _ _ _ = Some _ |- _ =>
    unfold Plans.node in H; apply new_Some in H as [-> ->]
  | H1 : ?h !! ?l = Some ?o1, H2 : ?h !! ?l = Some ?o2 |- _ =>
    assert (o2 = o1) as -> by congruence; clear H2
  end.

Section rewrite_rules.

Implicit Types (h : gmap loc Object).

(** What a successful [EmbedFilterIntoGet.apply] did: it read the
    predicate of [before], took the first child of [before], wrote the
    predicate into that child, in place, and returned that child. *)
Lemma EmbedFilterIntoGet_apply_Some before context h after h' :
  EmbedFilterIntoGet.apply before context h = Some (after, h')
  ↔ ∃ v o, Py.getattr before "predicate" h = Some (v, h)
           ∧ Py.child before 0 h = Some (after, h)
           ∧ h !! after = Some o
           ∧ h' = <[after := Obj.set_attr "predicate" v o]> h.
Proof.
  unfold EmbedFilterIntoGet.apply. split.
  - intros H. py_inv. eexists _, _. split_and!; try done.
    + apply getattr_Some. eauto.
    + apply child_Some. eauto.
  - intros (v & o & Hattr & Hchild & Ho & ->).
    apply bind_Some. eexists _, _. split; [done|].
    apply bind_Some. eexists _, _. split; [done|].
    apply bind_Some. exists tt. eexists. split; [|done].
    apply setattr_Some. eauto.
Qed.

Lemma EmbedProjectIntoGet_apply_Some before context h after h' :
  EmbedProjectIntoGet.apply before context h = Some (after, h')
  ↔ ∃ v o, Py.getattr before "target_list" h = Some (v, h)
           ∧ Py.child before 0 h = Some (after, h)
           ∧ h !! after = Some o
           ∧ h' = <[after := Obj.set_attr "target_list" v o]> h.
Proof.
  unfold EmbedProjectIntoGet.apply. split.
  - intros H. py_inv. eexists _, _. split_and!; try done.
    + apply getattr_Some. eauto.
    + apply child_Some. eauto.
  - intros (v & o & Hattr & Hchild & Ho & ->).
    apply bind_Some. eexists _, _. split; [done|].
    apply bind_Some. eexists _, _. split; [done|].
    apply bind_Some. exists tt. eexists. split; [|done].
    apply setattr_Some. eauto.
Qed.

End rewrite_rules.

Section implementation_rules.

Implicit Types (h : gmap loc Object).

(** A constructor call that is all a rule does after reading attributes:
    the store grows by one plan node without children. *)
Lemma node_only h nt fields after h' :
  Plans.node nt fields h = Some (after, h') →
  Store.unchanged h h' ∧ Store.newly_built h h' after.
Proof.
  intros H. py_inv. pose proof (fresh_not_in_store h) as Hfresh.
  split; [by apply unchanged_insert_new|].
  split; [done|]. eexists. split; [apply lookup_insert_eq|].
  simpl. by intros c ?%elem_of_nil.
Qed.

Lemma LogicalCreateToPhysical_apply_Some before context h after h' :
  LogicalCreateToPhysical.apply before context h = Some (after, h') →
  Store.unchanged h h' ∧ Store.newly_built h h' after.
Proof.
  unfold LogicalCreateToPhysical.apply, Plans.CreatePlan.
  intros H. py_inv. by eapply node_only.
Qed.

Lemma LogicalCreateUDFToPhysical_apply_Some before context h after h' :
  LogicalCreateUDFToPhysical.apply before context h = Some (after, h') →
  Store.unchanged h h' ∧ Store.newly_built h h' after.
Proof.
  unfold LogicalCreateUDFToPhysical.apply, Plans.CreateUDFPlan.
  intros H. py_inv. by eapply node_only.
Qed.

Lemma LogicalInsertToPhysical_apply_Some before context h after h' :
  LogicalInsertToPhysical.apply before context h = Some (after, h') →
  Store.unchanged h h' ∧ Store.newly_built h h' after.
Proof.
  unfold LogicalInsertToPhysical.apply, Plans.InsertPlan.
  intros H. py_inv. by eapply node_only.
Qed.

Lemma LogicalLoadToPhysical_apply_Some before context h after h' :
  LogicalLoadToPhysical.apply before context h = Some (after, h') →
  Store.unchanged h h' ∧ Store.newly_built h h' after.
Proof.
  unfold LogicalLoadToPhysical.apply, Plans.LoadDataPlan.
  intros H. py_inv. by eapply node_only.
Qed.

(** What a successful [LogicalGetToSeqScan.apply] did: it read
    [predicate], [select_list] and [dataset_metadata] from [before], built
    a scan node from the first two and a storage node from the third, both
    at unused addresses, and made the storage node the only child of the
    scan. *)
Lemma LogicalGetToSeqScan_apply_Some before context h after h' :
  LogicalGetToSeqScan.apply before context h = Some (after, h')
  ↔ ∃ o predicate select_list dataset_metadata storage,
      h !! before = Some o
      ∧ Obj.attrs o !! "predicate" = Some predicate
      ∧ Obj.attrs o !! "select_list" = Some select_list
      ∧ Obj.attrs o !! "dataset_metadata" = Some dataset_metadata
      ∧ after = fresh (dom h)
      ∧ storage = fresh ({[after]} ∪ dom h)
      ∧ h' = <[after :=
                 OPlan (AbstractPlan.mk SEQUENTIAL_SCAN [storage]
                          (list_to_map [("predicate", predicate);
                                        ("output_cols", select_list)]%string))]>
             (<[storage :=
                  OPlan (AbstractPlan.mk STORAGE_PLAN []
                           (list_to_map
                              [("metadata", dataset_metadata)]%string))]> h).
Proof.
  unfold LogicalGetToSeqScan.apply, Plans.SeqScanPlan, Plans.StoragePlan.
  split.
  - intros H. py_inv.
    pose proof (fresh_not_in_store h) as Hafter.
    set (after := fresh (dom h)) in *.
    match goal with
    | H : <[after := ?scan]> h !! before = Some _ |- _ =>
      rewrite lookup_insert_ne in H
        by (intros <-; apply Hafter, elem_of_dom;
            rewrite lookup_insert_eq in H; eauto);
      set (scan0 := scan) in *
    end.
    py_inv.
    assert (fresh (dom (<[after := scan0]> h)) ≠ after) as Hne.
    { intros Heq.
      apply (fresh_not_in_store (<[after := scan0]> h)).
      rewrite Heq at 1. rewrite dom_insert_L. set_solver. }
    match goal with
    | H : <[_ := _]> (<[after := scan0]> h) !! after = Some _ |- _ =>
      rewrite lookup_insert_ne, lookup_insert_eq in H by done;
      injection H as <-
    end.
    eexists _, _, _, _, _. split_and!; try done.
    rewrite dom_insert_L in Hne |- *. simpl.
    rewrite (insert_insert_ne _ after), insert_insert_eq by done.
    by apply insert_insert_ne.
  - intros (o & p & s & m & storage & Ho & Hp & Hs & Hm & -> & -> & ->).
    pose proof (fresh_not_in_store h) as Hafter.
    set (after := fresh (dom h)) in *.
    assert (before ≠ after) as Hba.
    { intros ->. apply Hafter, elem_of_dom. eauto. }
    assert (fresh ({[after]} ∪ dom h) ≠ after) as Hne.
    { intros Heq. apply (is_fresh ({[after]} ∪ dom h)).
      rewrite Heq at 1. set_solver. }
    apply bind_Some. eexists _, _. split; [apply getattr_Some; eauto|].
    apply bind_Some. eexists _, _. split; [apply getattr_Some; eauto|].
    apply bind_Some. eexists _, _. split; [by apply new_Some|].
    fold after.
    apply bind_Some. eexists _, _. split.
    { apply getattr_Some. split; [done|]. exists o.
      by rewrite lookup_insert_ne. }
    apply bind_Some. eexists _, _. split; [by apply new_Some|].
    apply bind_Some. exists tt. eexists. split.
    { apply append_child_Some. eexists. split; [|done].
      rewrite dom_insert_L. by rewrite lookup_insert_ne, lookup_insert_eq. }
    apply ret_Some. split; [done|].
    rewrite dom_insert_L. simpl.
    rewrite (insert_insert_ne h (fresh ({[after]} ∪ dom h)) after) by done.
    by rewrite insert_insert_eq.
Qed.

Lemma LogicalGetToSeqScan_apply_new before context h after h' :
  LogicalGetToSeqScan.apply before context h = Some (after, h') →
  Store.unchanged h h' ∧ Store.newly_built h h' after.
Proof.
  intros (o & p & s & m & storage & _ & _ & _ & _ & Hafter & Hstorage & ->)
    %LogicalGetToSeqScan_apply_Some.
  assert (after ∉ dom h) as Ha by (rewrite Hafter; apply is_fresh).
  assert (storage ∉ {[after]} ∪ dom h) as Hs
    by (rewrite Hstorage; apply is_fresh).
  split.
  - intros l Hl. rewrite !lookup_insert_ne; [done | set_solver..].
  - split; [done|]. eexists. split; [apply lookup_insert_eq|].
    simpl. intros c ->%list_elem_of_singleton. set_solver.
Qed.

End implementation_rules.

(** ** What [apply] does to the store *)

Lemma set_attr_attrs (name : string) (v : Value) (o : Object) :
  Obj.attrs (Obj.set_attr name v o) = <[name := v]> (Obj.attrs o).
Proof. by destruct o. Qed.

Lemma set_attr_children (name : string) (v : Value) (o : Object) :
  Obj.children (Obj.set_attr name v o) = Obj.children o.
Proof. by destruct o. Qed.

(** C2, as the code has it. An implementation rule leaves every object of
    the store as it was and returns a plan node built during the call,
    with children built during the call. A rewrite rule builds nothing: it
    returns the first child of [before], the very object the input tree
    holds, after writing one slot of it in place, [predicate] for the
    filter pushdown and [target_list] for the projection pushdown, with the
    value read from [before]; no other object and no other slot changes. *)
Theorem apply_effect_on_store
    (r : Rule.t) (before : loc) (context : OptimizerContext.t)
    (h : gmap loc Object) (after : loc) (h' : gmap loc Object) :
  r ∈ RulesManager.all_rules RulesManager.init →
  Rule.apply r before context h = Some (after, h') →
  (r ∈ RulesManager.implementation_rules RulesManager.init
   ∧ Store.unchanged h h' ∧ Store.newly_built h h' after)
  ∨ (r ∈ RulesManager.rewrite_rules RulesManager.init
     ∧ ∃ (slot : string) (v : Value) (o : Object),
         (r = EmbedFilterIntoGet.rule ∧ slot = "predicate"%string
          ∨ r = EmbedProjectIntoGet.rule ∧ slot = "target_list"%string)
         ∧ Py.getattr before slot h = Some (v, h)
         ∧ Py.child before 0 h = Some (after, h)
         ∧ h !! after = Some o
         ∧ h' = <[after := Obj.set_attr slot v o]> h
         ∧ Obj.attrs (Obj.set_attr slot v o) = <[slot := v]> (Obj.attrs o)
         ∧ Obj.children (Obj.set_attr slot v o) = Obj.children o
         ∧ ∀ l, l ≠ after → h' !! l = h !! l).
Proof.
  unfold RulesManager.all_rules. rewrite elem_of_app.
  intros [Hr | Hi] Happly.
  - right. split; [done|].
    apply rewrite_rules_inv in Hr as [-> | ->]; simpl in Happly.
    + apply EmbedFilterIntoGet_apply_Some
        in Happly as (v & o & Hattr & Hchild & Ho & ->).
      exists "predicate"%string, v, o. split_and!; try done.
      * by left.
      * apply set_attr_attrs.
      * apply set_attr_children.
      * intros l Hl. by apply lookup_insert_ne.
    + apply EmbedProjectIntoGet_apply_Some
        in Happly as (v & o & Hattr & Hchild & Ho & ->).
      exists "target_list"%string, v, o. split_and!; try done.
      * by right.
      * apply set_attr_attrs.
      * apply set_attr_children.
      * intros l Hl. by apply lookup_insert_ne.
  - left. split; [done|].
    apply implementation_rules_inv in Hi as [-> | [-> | [-> | [-> | ->]]]];
      simpl in Happly.
    + by eapply LogicalCreateToPhysical_apply_Some.
    + by eapply LogicalCreateUDFToPhysical_apply_Some.
    + by eapply LogicalInsertToPhysical_apply_Some.
    + by eapply LogicalLoadToPhysical_apply_Some.
    + by eapply LogicalGetToSeqScan_apply_new.
Qed.

(** C2, refuted as stated: on the tree Project(Filter(Get())) the filter
    pushdown, applied to the filter at address 11, returns address 12, the
    get that is the filter's child in the input tree, and the object at
    that address is no longer what it was: the input tree is patched and
    nothing new is built. *)
Lemma filter_pushdown_patches_the_input :
  ∃ after h',
    Rule.apply EmbedFilterIntoGet.rule 11%nat Samples.context Samples.heap
    = Some (after, h')
    ∧ Py.child 11%nat 0 Samples.heap = Some (after, Samples.heap)
    ∧ h' !! after ≠ Samples.heap !! after
    ∧ ¬ Store.unchanged Samples.heap h'
    ∧ ¬ Store.newly_built Samples.heap h' after.
Proof.
  exists 12%nat,
    (<[12%nat := Obj.set_attr "predicate" (VRef 100) Samples.get_node]>
       Samples.heap).
  assert (12%nat ∈ dom Samples.heap) as Hdom
    by (apply elem_of_dom; by eexists).
  assert (<[12%nat := Obj.set_attr "predicate" (VRef 100) Samples.get_node]>
            Samples.heap !! 12%nat ≠ Samples.heap !! 12%nat) as Hne.
  { rewrite lookup_insert_eq. by vm_compute. }
  split_and!.
  - by vm_compute.
  - by vm_compute.
  - done.
  - intros Hun. by apply Hne, Hun.
  - by intros [Hnew _].
Qed.

Lemma apply_effect_on_store_witness :
  let h := Samples.heap in
  let h' := <[12%nat := Obj.set_attr "predicate" (VRef 100) Samples.get_node]>
              Samples.heap in
  let r := EmbedFilterIntoGet.rule in
  (r ∈ RulesManager.implementation_rules RulesManager.init
   ∧ Store.unchanged h h' ∧ Store.newly_built h h' 12%nat)
  ∨ (r ∈ RulesManager.rewrite_rules RulesManager.init
     ∧ ∃ (slot : string) (v : Value) (o : Object),
         (r = EmbedFilterIntoGet.rule ∧ slot = "predicate"%string
          ∨ r = EmbedProjectIntoGet.rule ∧ slot = "target_list"%string)
         ∧ Py.getattr 11%nat slot h = Some (v, h)
         ∧ Py.child 11%nat 0 h = Some (12%nat, h)
         ∧ h !! 12%nat = Some o
         ∧ h' = <[12%nat := Obj.set_attr slot v o]> h
         ∧ Obj.attrs (Obj.set_attr slot v o) = <[slot := v]> (Obj.attrs o)
         ∧ Obj.children (Obj.set_attr slot v o) = Obj.children o
         ∧ ∀ l, l ≠ 12%nat → h' !! l = h !! l).
Proof.
  apply (apply_effect_on_store EmbedFilterIntoGet.rule 11%nat
           Samples.context Samples.heap 12%nat).
  - unfold RulesManager.all_rules. simpl. rewrite !elem_of_cons. tauto.
  - vm_compute. reflexivity.
Defined.

(** An implementation rule on a sample store: the create operator at
    address 20 stays as it is and the plan node appears at the unused
    address 21. *)
Example create_builds_a_new_node :
  ∃ h', Rule.apply LogicalCreateToPhysical.rule 20%nat Samples.context
          Samples.create_heap = Some (21%nat, h')
        ∧ h' !! 20%nat = Samples.create_heap !! 20%nat
        ∧ Samples.create_heap !! 21%nat = None
        ∧ h' !! 21%nat
          = Some (OPlan (AbstractPlan.mk CREATE []
                           (list_to_map
                              [("video", VRef 104); ("column_list", VRef 105);
                               ("if_not_exists", VBool true)]%string))).
Proof. eexists. split_and!; by vm_compute. Qed.

(** ** The two pushdowns, one after the other *)

(** C7. On the tree Project(cols=C, child=Filter(pred=P, child=Get())) the
    filter pushdown, applied to the filter, returns the get with [P] in its
    [predicate] slot; once the driver has put that result in the filter's
    place under the project, the projection pushdown returns the same get
    with [C] in its [target_list] slot and [P] still in [predicate]. Each
    rule writes its own slot and leaves every other attribute, and the
    children, of the get as they were. *)
Theorem pushdowns_compose
    (h : gmap loc Object) (context : OptimizerContext.t)
    (project filter get : loc) (o_project o_filter o_get : Operator.t)
    (P C : Value) :
  h !! project = Some (OOperator o_project) →
  Operator.type o_project = LOGICALPROJECT →
  Operator.children o_project = [filter] →
  Operator.attrs o_project !! "target_list" = Some C →
  h !! filter = Some (OOperator o_filter) →
  Operator.type o_filter = LOGICALFILTER →
  Operator.children o_filter = [get] →
  Operator.attrs o_filter !! "predicate" = Some P →
  h !! get = Some (OOperator o_get) →
  Operator.type o_get = LOGICALGET →
  ∃ h1 h2 h3 attrs1 attrs3,
    EmbedFilterIntoGet.apply filter context h = Some (get, h1)
    ∧ h1 !! get
      = Some (OOperator
                (Operator.mk LOGICALGET (Operator.children o_get) attrs1))
    ∧ attrs1 = <["predicate" := P]> (Operator.attrs o_get)
    ∧ Driver.reinsert project 0 get h1 = Some (tt, h2)
    ∧ EmbedProjectIntoGet.apply project context h2 = Some (get, h3)
    ∧ h3 !! get
      = Some (OOperator
                (Operator.mk LOGICALGET (Operator.children o_get) attrs3))
    ∧ attrs3 = <["target_list" := C]> attrs1
    ∧ attrs3 !! "predicate" = Some P
    ∧ attrs3 !! "target_list" = Some C
    ∧ ∀ name : string, name ≠ "predicate"%string →
        name ≠ "target_list"%string →
        attrs3 !! name = Operator.attrs o_get !! name.
Proof.
  intros Hproject Tproject Cproject Aproject Hfilter Tfilter Cfilter Afilter
    Hget Tget.
  assert (project ≠ get) as Hpg by (intros ->; congruence).
  set (get1 := Obj.set_attr "predicate" P (OOperator o_get)).
  set (h1 := <[get := get1]> h).
  set (h2 := <[project := Driver.set_child 0 get (OOperator o_project)]> h1).
  set (get3 := Obj.set_attr "target_list" C get1).
  exists h1, h2, (<[get := get3]> h2), (<["predicate" := P]> (Operator.attrs o_get)),
    (<["target_list" := C]> (<["predicate" := P]> (Operator.attrs o_get))).
  assert (h1 !! get = Some get1) as Hget1 by apply lookup_insert_eq.
  assert (h1 !! project = Some (OOperator o_project)) as Hproject1
    by (unfold h1; by rewrite lookup_insert_ne).
  assert (h2 !! get = Some get1) as Hget2
    by (unfold h2; by rewrite lookup_insert_ne).
  split_and!.
  - apply EmbedFilterIntoGet_apply_Some. exists P, (OOperator o_get).
    split_and!; [| |done..].
    + apply getattr_Some. split; [done|]. by exists (OOperator o_filter).
    + apply child_Some. split; [done|]. exists (OOperator o_filter).
      split; [done|]. simpl. by rewrite Cfilter.
  - rewrite Hget1. unfold get1. simpl. by rewrite Tget.
  - done.
  - unfold Driver.reinsert. by rewrite Hproject1.
  - apply EmbedProjectIntoGet_apply_Some. exists C, get1.
    split_and!; [| |done..].
    + apply getattr_Some. split; [done|]. eexists.
      split; [apply lookup_insert_eq | done].
    + apply child_Some. split; [done|]. eexists.
      split; [apply lookup_insert_eq|]. simpl. by rewrite Cproject.
  - rewrite lookup_insert_eq. unfold get3, get1. simpl. by rewrite Tget.
  - done.
  - rewrite lookup_insert_ne by done. apply lookup_insert_eq.
  - apply lookup_insert_eq.
  - intros name Hp Ht. by rewrite !lookup_insert_ne.
Qed.

Lemma pushdowns_compose_witness :
  ∃ h1 h2 h3 attrs1 attrs3,
    EmbedFilterIntoGet.apply 11%nat Samples.context Samples.heap
    = Some (12%nat, h1)
    ∧ h1 !! 12%nat = Some (OOperator (Operator.mk LOGICALGET [] attrs1))
    ∧ attrs1
      = <["predicate" := VRef 100]>
          (list_to_map [("predicate", VNone); ("target_list", VNone);
                        ("dataset_metadata", VRef 103)]%string)
    ∧ Driver.reinsert 10%nat 0 12%nat h1 = Some (tt, h2)
    ∧ EmbedProjectIntoGet.apply 10%nat Samples.context h2 = Some (12%nat, h3)
    ∧ h3 !! 12%nat = Some (OOperator (Operator.mk LOGICALGET [] attrs3))
    ∧ attrs3 = <["target_list" := VRef 101]> attrs1
    ∧ attrs3 !! "predicate" = Some (VRef 100)
    ∧ attrs3 !! "target_list" = Some (VRef 101)
    ∧ ∀ name : string, name ≠ "predicate"%string →
        name ≠ "target_list"%string →
        attrs3 !! name
        = (list_to_map [("predicate", VNone); ("target_list", VNone);
                        ("dataset_metadata", VRef 103)]%string
           : gmap string Value) !! name.
Proof.
  refine (pushdowns_compose Samples.heap Samples.context 10%nat 11%nat 12%nat
            (Operator.mk LOGICALPROJECT [11%nat]
               (list_to_map [("target_list", VRef 101)]%string))
            (Operator.mk LOGICALFILTER [12%nat]
               (list_to_map [("predicate", VRef 100)]%string))
            (Operator.mk LOGICALGET []
               (list_to_map [("predicate", VNone); ("target_list", VNone);
                             ("dataset_metadata", VRef 103)]%string))
            (VRef 100) (VRef 101) _ _ _ _ _ _ _ _ _ _); reflexivity.
Defined.

(** Without the driver's step the projection pushdown is handed a project
    whose first child is still the filter, and it is the filter that gets
    the column list. *)
Example project_pushdown_before_reinsert :
  ∃ h1 h3,
    EmbedFilterIntoGet.apply 11%nat Samples.context Samples.heap
    = Some (12%nat, h1)
    ∧ EmbedProjectIntoGet.apply 10%nat Samples.context h1 = Some (11%nat, h3)
    ∧ (Obj.attrs <$> h3 !! 11%nat) ≫= (.!! "target_list"%string)
      = Some (VRef 101)
    ∧ (Obj.attrs <$> h3 !! 12%nat) ≫= (.!! "target_list"%string)
      = Some VNone.
Proof. eexists _, _. split_and!; by vm_compute. Qed.

(** ** From the get to the scan *)

(** C8, at the input where the code parts from it. The projection pushdown
    leaves the column list in the slot [target_list], while
    [LogicalGetToSeqScan.apply] builds the scan from the slot
    [select_list]. On a get that carries predicate 100, the pushed column
    list 101 and metadata 103, the rule raises when the get has no
    [select_list], and when [select_list] is [None] the scan it returns
    has the predicate 100 and one storage child carrying 103, but [None]
    where the column list 101 should be. The same happens end to end:
    pushing the project at address 10 into the get at 12 and then turning
    that get into a scan loses the column list. *)
Theorem seqscan_drops_pushed_columns :
  Obj.attrs (Samples.pushed_get None) !! "target_list" = Some (VRef 101)
  ∧ LogicalGetToSeqScan.apply 12%nat Samples.context
      (Samples.pushed_heap None) = None
  ∧ Obj.attrs (Samples.pushed_get (Some VNone)) !! "target_list"
    = Some (VRef 101)
  ∧ (∃ h',
      LogicalGetToSeqScan.apply 12%nat Samples.context
        (Samples.pushed_heap (Some VNone)) = Some (13%nat, h')
      ∧ h' !! 13%nat
        = Some (OPlan (AbstractPlan.mk SEQUENTIAL_SCAN [14%nat]
                         (list_to_map [("predicate", VRef 100);
                                       ("output_cols", VNone)]%string)))
      ∧ h' !! 14%nat
        = Some (OPlan (AbstractPlan.mk STORAGE_PLAN []
                         (list_to_map [("metadata", VRef 103)]%string))))
  ∧ ∃ h1 h2,
      EmbedProjectIntoGet.apply 10%nat Samples.context
        Samples.project_over_get = Some (12%nat, h1)
      ∧ (Obj.attrs <$> h1 !! 12%nat) ≫= (.!! "target_list"%string)
        = Some (VRef 101)
      ∧ LogicalGetToSeqScan.apply 12%nat Samples.context h1
        = Some (13%nat, h2)
      ∧ (Obj.attrs <$> h2 !! 13%nat) ≫= (.!! "output_cols"%string)
        = Some VNone.
Proof.
  split_and!; [by vm_compute..| |].
  - eexists. split_and!; by vm_compute.
  - eexists _, _. split_and!; by vm_compute.
Qed.

(** X16. What does hold of the scan rule: the scan it builds carries the get's
    [predicate] and [select_list], and its only child is a storage node
    carrying the get's [dataset_metadata]. *)
Lemma seqscan_from_select_list
    (before : loc) (context : OptimizerContext.t) (h : gmap loc Object)
    (o : Object) (P C M : Value) :
  h !! before = Some o →
  Obj.attrs o !! "predicate" = Some P →
  Obj.attrs o !! "select_list" = Some C →
  Obj.attrs o !! "dataset_metadata" = Some M →
  ∃ after storage h',
    LogicalGetToSeqScan.apply before context h = Some (after, h')
    ∧ h' !! after
      = Some (OPlan (AbstractPlan.mk SEQUENTIAL_SCAN [storage]
                       (list_to_map [("predicate", P);
                                     ("output_cols", C)]%string)))
    ∧ h' !! storage
      = Some (OPlan (AbstractPlan.mk STORAGE_PLAN []
                       (list_to_map [("metadata", M)]%string)))
    ∧ h' !! before = Some o.
Proof.
  intros Ho HP HC HM.
  set (after := fresh (dom h)).
  set (storage := fresh ({[after]} ∪ dom h)).
  assert (after ∉ dom h) as Ha by apply is_fresh.
  assert (storage ∉ {[after]} ∪ dom h) as Hs by apply is_fresh.
  assert (before ∈ dom h) as Hb by (apply elem_of_dom; eauto).
  eexists after, storage, _. split_and!.
  - apply LogicalGetToSeqScan_apply_Some.
    by exists o, P, C, M, storage.
  - apply lookup_insert_eq.
  - rewrite lookup_insert_ne by set_solver. apply lookup_insert_eq.
  - rewrite !lookup_insert_ne; [done | set_solver..].
Qed.

(** * Further properties *)

(** ** [auto()] and the order of the members *)

Lemma autos_from_lookup (count : nat) (last_values : list Z) (k : Z) (i : nat) :
  0 ≤ k →
  Flag.auto last_values = 2 ^ k →
  (i < count)%nat →
  Flag.autos_from last_values count !! i = Some (2 ^ (k + Z.of_nat i)).
Proof.
  revert last_values k i.
  induction count as [|count IH]; intros last_values k i Hk Hauto Hi; [lia|].
  change (Flag.autos_from last_values (S count))
    with (Flag.auto last_values
          :: Flag.autos_from (last_values ++ [Flag.auto last_values]) count).
  rewrite Hauto. destruct i as [|i].
  - simpl. by rewrite Z.add_0_r.
  - rewrite lookup_cons.
    rewrite (IH _ (k + 1)); [f_equal; f_equal; lia | lia | | lia].
    unfold Flag.auto. rewrite last_snoc.
    by rewrite Z.log2_pow2.
Qed.

(** X1. In a class body of [count] members that are all declared with
    [auto()], the member at position [i] gets the value [2 ^ i], and there
    are [count] values. *)
Theorem autos_are_powers_of_two (count i : nat) :
  (i < count)%nat →
  Flag.autos count !! i = Some (2 ^ Z.of_nat i)
  ∧ length (Flag.autos count) = count.
Proof.
  intros Hi. split.
  - unfold Flag.autos. by rewrite (autos_from_lookup count [] 0 i).
  - unfold Flag.autos. clear Hi. generalize (@nil Z).
    induction count as [|count IH]; intros l; simpl; [done|].
    f_equal. apply IH.
Qed.

Lemma autos_are_powers_of_two_witness :
  Flag.autos 9 !! 2%nat = Some (2 ^ Z.of_nat 2)
  ∧ length (Flag.autos 9) = 9%nat.
Proof. apply (autos_are_powers_of_two 9 2). lia. Defined.

Lemma Promise_value_pow2 (p : Promise) :
  Promises.value p = 2 ^ Z.of_nat (Promises.index p).
Proof. by destruct p. Qed.

(** X2. In both enumerations the numeric order of the values is the order
    of declaration: one member is below another exactly when it is
    declared earlier. This is what the delimiter members rely on. *)
Theorem enum_order_is_declaration_order :
  (∀ t1 t2 : RuleType,
     RuleTypes.value t1 < RuleTypes.value t2
     ↔ (RuleTypes.index t1 < RuleTypes.index t2)%nat)
  ∧ (∀ p1 p2 : Promise,
       Promises.value p1 < Promises.value p2
       ↔ (Promises.index p1 < Promises.index p2)%nat).
Proof.
  split.
  - intros t1 t2. rewrite !RuleType_value_pow2.
    rewrite <- Z.pow_lt_mono_r_iff by lia. lia.
  - intros p1 p2. rewrite !Promise_value_pow2.
    rewrite <- Z.pow_lt_mono_r_iff by lia. lia.
Qed.

(** ** The registry, rule by rule *)

Lemma all_rules_inv (r : Rule.t) :
  r ∈ RulesManager.all_rules RulesManager.init →
  r = EmbedFilterIntoGet.rule ∨ r = EmbedProjectIntoGet.rule
  ∨ r = LogicalCreateToPhysical.rule ∨ r = LogicalCreateUDFToPhysical.rule
  ∨ r = LogicalInsertToPhysical.rule ∨ r = LogicalLoadToPhysical.rule
  ∨ r = LogicalGetToSeqScan.rule.
Proof.
  unfold RulesManager.all_rules. simpl.
  rewrite !elem_of_cons, elem_of_nil. tauto.
Qed.

Lemma all_rules_intro (r : Rule.t) :
  r = EmbedFilterIntoGet.rule ∨ r = EmbedProjectIntoGet.rule
  ∨ r = LogicalCreateToPhysical.rule ∨ r = LogicalCreateUDFToPhysical.rule
  ∨ r = LogicalInsertToPhysical.rule ∨ r = LogicalLoadToPhysical.rule
  ∨ r = LogicalGetToSeqScan.rule →
  r ∈ RulesManager.all_rules RulesManager.init.
Proof.
  unfold RulesManager.all_rules. simpl.
  rewrite !elem_of_cons, elem_of_nil. tauto.
Qed.

(** Splits a goal about a rule of the registry into its seven cases. *)
Ltac registry_cases H :=
  apply all_rules_inv in H as [-> | [-> | [-> | [-> | [-> | [-> | ->]]]]]].

(** X3. Every member of [RuleType] other than the two delimiters is the
    [rule_type] of exactly one rule of the registry, and no rule of the
    registry has a delimiter as its [rule_type]. *)
Theorem rule_type_names_one_rule (t : RuleType) :
  (t = RT_REWRITE_DELIMETER ∨ t = RT_IMPLEMENTATION_DELIMETER →
   ∀ r, r ∈ RulesManager.all_rules RulesManager.init →
        Rule.rule_type r ≠ t)
  ∧ (t ≠ RT_REWRITE_DELIMETER → t ≠ RT_IMPLEMENTATION_DELIMETER →
     ∃ r, r ∈ RulesManager.all_rules RulesManager.init
          ∧ Rule.rule_type r = t
          ∧ ∀ r', r' ∈ RulesManager.all_rules RulesManager.init →
                  Rule.rule_type r' = t → r' = r).
Proof.
  split.
  - intros [-> | ->] r Hr; by registry_cases Hr.
  - intros Hrw Himpl.
    assert (∃ r, r ∈ RulesManager.all_rules RulesManager.init
                 ∧ Rule.rule_type r = t) as (r & Hr & Ht).
    { destruct t; try done; eexists; (split; [apply all_rules_intro|]).
      1: left; reflexivity. 1: done.
      1: right; left; reflexivity. 1: done.
      1: do 4 right; left; reflexivity. 1: done.
      1: do 5 right; left; reflexivity. 1: done.
      1: do 2 right; left; reflexivity. 1: done.
      1: do 3 right; left; reflexivity. 1: done.
      1: do 6 right; reflexivity. done. }
    exists r. split_and!; [done..|].
    intros r' Hr' Ht'. rewrite <- Ht in Ht'. clear Ht Hrw Himpl.
    registry_cases Hr; registry_cases Hr'; done.
Qed.

(** X4. No two rules of the registry promise the same: of two different
    rules one has the strictly greater promise, so the greater-promise
    preference never meets a tie. *)
Theorem promise_has_no_ties (r1 r2 : Rule.t) :
  r1 ∈ RulesManager.all_rules RulesManager.init →
  r2 ∈ RulesManager.all_rules RulesManager.init →
  r1 = r2
  ∨ Promises.value (Rule.promise r1) < Promises.value (Rule.promise r2)
  ∨ Promises.value (Rule.promise r2) < Promises.value (Rule.promise r1).
Proof.
  intros H1 H2. registry_cases H1; registry_cases H2;
    first [by left | by right; left | by right; right].
Qed.

Lemma promise_has_no_ties_witness :
  EmbedFilterIntoGet.rule = EmbedProjectIntoGet.rule
  ∨ Promises.value (Rule.promise EmbedFilterIntoGet.rule)
    < Promises.value (Rule.promise EmbedProjectIntoGet.rule)
  ∨ Promises.value (Rule.promise EmbedProjectIntoGet.rule)
    < Promises.value (Rule.promise EmbedFilterIntoGet.rule).
Proof.
  apply (promise_has_no_ties EmbedFilterIntoGet.rule EmbedProjectIntoGet.rule);
    apply all_rules_intro; tauto.
Defined.

(** X5. An operator passes [top_match] for at most one rule of the
    registry: the root tags of the seven patterns are pairwise different.
    An operator tagged [DUMMY] passes it for none. *)
Theorem top_match_picks_one_rule (r1 r2 : Rule.t) (opr : Operator.t) :
  r1 ∈ RulesManager.all_rules RulesManager.init →
  r2 ∈ RulesManager.all_rules RulesManager.init →
  Rule.top_match r1 opr = true →
  (Rule.top_match r2 opr = true → r1 = r2)
  ∧ Operator.type opr ≠ DUMMY.
Proof.
  unfold Rule.top_match. intros H1 H2 Hm1%bool_decide_eq_true. split.
  - intros Hm2%bool_decide_eq_true. rewrite Hm1 in Hm2. clear Hm1.
    registry_cases H1; registry_cases H2; done.
  - rewrite Hm1. clear Hm1 H2. registry_cases H1; done.
Qed.

Lemma top_match_picks_one_rule_witness :
  (Rule.top_match EmbedFilterIntoGet.rule
     (GroupExpression.opr Samples.filter_expr) = true →
   EmbedFilterIntoGet.rule = EmbedFilterIntoGet.rule)
  ∧ Operator.type (GroupExpression.opr Samples.filter_expr) ≠ DUMMY.
Proof.
  apply (top_match_picks_one_rule EmbedFilterIntoGet.rule
           EmbedFilterIntoGet.rule (GroupExpression.opr Samples.filter_expr));
    [apply all_rules_intro; tauto | apply all_rules_intro; tauto
    | reflexivity].
Defined.

(** ** More on the matcher *)

Section matcher_edges.

Context (context : OptimizerContext.t).

Local Abbreviation get_group :=
  (Memo.get_group (OptimizerContext.memo context)).
Local Abbreviation matches := (Matching.compare_expr_with_pattern context).



End matcher_edges.

Section matcher_frames.

Implicit Types (context : OptimizerContext.t).

Lemma compare_children_ext context context' (ids : list Z)
    (pats : list Pattern) (b : bool) :
  Forall (λ q, ∀ c, Matching.compare_expr_with_pattern context' c q
                    = Matching.compare_expr_with_pattern context c q) pats →
  Matching.compare_children context' ids pats b
  = Matching.compare_children context ids pats b.
Proof.
  intros Hall. revert ids b.
  induction Hall as [|q pats Hq _ IH]; intros [|c ids] b; try done.
  simpl. rewrite Hq. destruct (Matching.compare_expr_with_pattern _ c q);
    [apply IH | done].
Qed.

(** X7. The matcher reads the operator tags and the child group ids and
    nothing else: replacing every stored operator by one with the same tag,
    whatever its attributes and children, changes no result. *)
Theorem compare_expr_with_pattern_reads_tags_only
    (f : Operator.t → Operator.t) context (grp_id : Z) (pattern : Pattern) :
  (∀ opr, Operator.type (f opr) = Operator.type opr) →
  Matching.compare_expr_with_pattern (Matching.map_operators f context)
    grp_id pattern
  = Matching.compare_expr_with_pattern context grp_id pattern.
Proof.
  intros Hf. revert grp_id.
  induction pattern as [tag pats IH] using Pattern_nested_ind.
  intros grp_id. rewrite !compare_expr_with_pattern_unfold.
  unfold Memo.get_group, Matching.map_operators. simpl.
  rewrite lookup_fmap.
  destruct (Memo.groups (OptimizerContext.memo context) !! grp_id)
    as [[[e|]]|]; simpl; try done.
  unfold Matching.root_differs. simpl. rewrite Hf.
  destruct (_ || _); [done|].
  by apply compare_children_ext.
Qed.



End matcher_frames.

Lemma compare_expr_with_pattern_reads_tags_only_witness :
  Matching.compare_expr_with_pattern
    (Matching.map_operators (λ opr, Operator.mk (Operator.type opr) [] ∅)
       Samples.context) 0 EmbedFilterIntoGet.pattern
  = Matching.compare_expr_with_pattern Samples.context 0
      EmbedFilterIntoGet.pattern.
Proof.
  apply (compare_expr_with_pattern_reads_tags_only
           (λ opr, Operator.mk (Operator.type opr) [] ∅)).
  reflexivity.
Defined.


Lemma sample_memo_closed : Matching.closed Samples.context.
Proof.
  intros g grp e c Hg He Hc. unfold Memo.get_group in *.
  unfold Samples.context in *. simpl in *.
  apply lookup_insert_Some in Hg as [[<- <-] | [_ Hg]].
  { injection He as <-. apply list_elem_of_singleton in Hc as ->.
    by eexists. }
  apply lookup_insert_Some in Hg as [[<- <-] | [_ Hg]].
  { injection He as <-. by apply elem_of_nil in Hc. }
  apply lookup_insert_Some in Hg as [[<- <-] | [_ Hg]]; [done|].
  by rewrite lookup_empty in Hg.
Qed.

(** X9. On a memo in which every stored child id is the id of a stored
    group the matcher never raises: for every stored group id and every
    pattern it returns [True] or [False]. *)
Theorem compare_expr_with_pattern_total_on_closed_memo
    (context : OptimizerContext.t) (grp_id : Z) (pattern : Pattern) :
  Matching.closed context →
  is_Some (Memo.get_group (OptimizerContext.memo context) grp_id) →
  Matching.compare_expr_with_pattern context grp_id pattern = Some true
  ∨ Matching.compare_expr_with_pattern context grp_id pattern = Some false.
Proof.
  intros Hclosed Hgrp.
  destruct (compare_expr_with_pattern_returns context pattern Hclosed
              grp_id Hgrp) as [[] Hr]; [by left | by right].
Qed.

Lemma compare_expr_with_pattern_total_on_closed_memo_witness :
  Matching.compare_expr_with_pattern Samples.context 0
    LogicalGetToSeqScan.pattern = Some true
  ∨ Matching.compare_expr_with_pattern Samples.context 0
      LogicalGetToSeqScan.pattern = Some false.
Proof.
  apply (compare_expr_with_pattern_total_on_closed_memo Samples.context 0
           LogicalGetToSeqScan.pattern).
  - exact sample_memo_closed.
  - by eexists.
Defined.

Section registered_patterns.

Context (context : OptimizerContext.t).

Local Abbreviation get_group :=
  (Memo.get_group (OptimizerContext.memo context)).
Local Abbreviation matches := (Matching.compare_expr_with_pattern context).

(** What a pattern of one node over one leaf matches. *)
Lemma two_level_pattern_matches (grp_id : Z) (tag child_tag : OperatorType) :
  matches grp_id (mkPattern tag [mkPattern child_tag []]) = Some true
  ↔ ∃ grp e c grp' e',
      get_group grp_id = Some grp
      ∧ Group.get_logical_expr grp = Some e
      ∧ Operator.type (GroupExpression.opr e) = tag
      ∧ GroupExpression.children e = [c]
      ∧ get_group c = Some grp'
      ∧ Group.get_logical_expr grp' = Some e'
      ∧ Operator.type (GroupExpression.opr e') = child_tag
      ∧ GroupExpression.children e' = [].
Proof.
  rewrite compare_expr_with_pattern_unfold. split.
  - destruct (get_group grp_id) as [grp|]; [|done].
    destruct (Group.get_logical_expr grp) as [e|] eqn:He; [|done].
    destruct (Matching.root_differs e _) eqn:Hroot; [done|].
    apply root_differs_false in Hroot as [Htag Hlen]. simpl in Htag, Hlen.
    destruct (GroupExpression.children e) as [|c [|? ?]] eqn:Hch; try done.
    cbn [Matching.compare_children Patterns.children].
    rewrite compare_expr_with_pattern_unfold.
    destruct (get_group c) as [grp'|] eqn:Hc; [|done].
    destruct (Group.get_logical_expr grp') as [e'|] eqn:He'; [|done].
    destruct (Matching.root_differs e' _) eqn:Hroot'; [done|].
    apply root_differs_false in Hroot' as [Htag' Hlen']. simpl in Htag', Hlen'.
    intros _. exists grp, e, c, grp', e'. split_and!; try done.
    by destruct (GroupExpression.children e').
  - intros (grp & e & c & grp' & e' & -> & -> & Htag & Hch & Hc & He' & Htag'
            & Hch').
    assert (Matching.root_differs e (mkPattern tag [mkPattern child_tag []])
            = false) as ->.
    { apply root_differs_false. by rewrite Hch. }
    rewrite Hch. cbn [Matching.compare_children Patterns.children].
    rewrite compare_expr_with_pattern_unfold, Hc, He'.
    assert (Matching.root_differs e' (mkPattern child_tag []) = false) as ->.
    { apply root_differs_false. by rewrite Hch'. }
    by rewrite Hch'.
Qed.

(** X10. Every pattern of the registry is one tag over one childless
    child, [LOGICALGET] for the rewrite rules and [DUMMY] for the
    implementation rules. So a rule of the registry matches a group exactly
    when the group's expression has the rule's root tag and exactly one
    child group, and that child group holds an expression with the child
    tag and no child groups; an implementation rule matches only
    above a group that holds a childless [DUMMY] operator. *)
Theorem registered_rule_matches (r : Rule.t) (grp_id : Z) :
  r ∈ RulesManager.all_rules RulesManager.init →
  ∃ tag child_tag,
    Rule.pattern r = mkPattern tag [mkPattern child_tag []]
    ∧ (r ∈ RulesManager.rewrite_rules RulesManager.init →
       child_tag = LOGICALGET)
    ∧ (r ∈ RulesManager.implementation_rules RulesManager.init →
       child_tag = DUMMY)
    ∧ (matches grp_id (Rule.pattern r) = Some true
       ↔ ∃ grp e c grp' e',
           get_group grp_id = Some grp
           ∧ Group.get_logical_expr grp = Some e
           ∧ Operator.type (GroupExpression.opr e) = tag
           ∧ GroupExpression.children e = [c]
           ∧ get_group c = Some grp'
           ∧ Group.get_logical_expr grp' = Some e'
           ∧ Operator.type (GroupExpression.opr e') = child_tag
           ∧ GroupExpression.children e' = []).
Proof.
  intros Hr.
  assert (∃ tag child_tag,
            Rule.pattern r = mkPattern tag [mkPattern child_tag []]
            ∧ (r ∈ RulesManager.rewrite_rules RulesManager.init →
               child_tag = LOGICALGET)
            ∧ (r ∈ RulesManager.implementation_rules RulesManager.init →
               child_tag = DUMMY))
    as (tag & child_tag & Hpat & Hrw & Himpl).
  { registry_cases Hr; eexists _, _; (split; [reflexivity|]); split;
      first [ done
            | intros H%rewrite_rule_type; by vm_compute in H
            | intros H%implementation_rule_type; destruct H as [H _];
              by vm_compute in H ]. }
  exists tag, child_tag. split_and!; [done..|].
  rewrite Hpat. apply two_level_pattern_matches.
Qed.

End registered_patterns.

Lemma registered_rule_matches_witness :
  ∃ tag child_tag,
    Rule.pattern LogicalGetToSeqScan.rule
    = mkPattern tag [mkPattern child_tag []]
    ∧ (LogicalGetToSeqScan.rule
       ∈ RulesManager.rewrite_rules RulesManager.init →
       child_tag = LOGICALGET)
    ∧ (LogicalGetToSeqScan.rule
       ∈ RulesManager.implementation_rules RulesManager.init →
       child_tag = DUMMY)
    ∧ (Matching.compare_expr_with_pattern Samples.context 1
         (Rule.pattern LogicalGetToSeqScan.rule) = Some true
       ↔ ∃ grp e c grp' e',
           Memo.get_group (OptimizerContext.memo Samples.context) 1
           = Some grp
           ∧ Group.get_logical_expr grp = Some e
           ∧ Operator.type (GroupExpression.opr e) = tag
           ∧ GroupExpression.children e = [c]
           ∧ Memo.get_group (OptimizerContext.memo Samples.context) c
             = Some grp'
           ∧ Group.get_logical_expr grp' = Some e'
           ∧ Operator.type (GroupExpression.opr e') = child_tag
           ∧ GroupExpression.children e' = []).
Proof.
  apply (registered_rule_matches Samples.context LogicalGetToSeqScan.rule 1).
  apply all_rules_intro. tauto.
Defined.

(** ** More on the pushdowns *)

Section pushdowns.

Implicit Types (h : gmap loc Object) (l : loc) (o : Object).

Lemma set_attr_twice (name : string) (v w : Value) o :
  Obj.set_attr name w (Obj.set_attr name v o) = Obj.set_attr name w o.
Proof. destruct o; simpl; by rewrite insert_insert_eq. Qed.

Lemma set_attr_swap (name name' : string) (v w : Value) o :
  name ≠ name' →
  Obj.set_attr name v (Obj.set_attr name' w o)
  = Obj.set_attr name' w (Obj.set_attr name v o).
Proof. intros Hne. destruct o; simpl; by rewrite insert_insert_ne. Qed.

(** Reading a slot after a write to another slot, of any object. *)
Lemma getattr_after_other_write l l' (name slot : string) (v w : Value) h o :
  name ≠ slot →
  h !! l' = Some o →
  Py.getattr l name h = Some (v, h) →
  Py.getattr l name (<[l' := Obj.set_attr slot w o]> h)
  = Some (v, <[l' := Obj.set_attr slot w o]> h).
Proof.
  intros Hne Ho [_ (o' & Ho' & Hv)]%getattr_Some.
  apply getattr_Some. split; [done|].
  destruct (decide (l' = l)) as [->|Hl].
  - rewrite lookup_insert_eq. eexists. split; [done|].
    rewrite set_attr_attrs, lookup_insert_ne by done. congruence.
  - rewrite lookup_insert_ne by done. eauto.
Qed.

(** Reading a slot after a write elsewhere, or of the value read. *)
Lemma getattr_after_same_write l l' (slot : string) (v w : Value) h o :
  l ≠ l' ∨ w = v →
  h !! l' = Some o →
  Py.getattr l slot h = Some (v, h) →
  Py.getattr l slot (<[l' := Obj.set_attr slot w o]> h)
  = Some (v, <[l' := Obj.set_attr slot w o]> h).
Proof.
  intros Hor Ho [_ (o' & Ho' & Hv)]%getattr_Some.
  apply getattr_Some. split; [done|].
  destruct (decide (l' = l)) as [->|Hl].
  - destruct Hor as [? | ->]; [done|].
    rewrite lookup_insert_eq. eexists. split; [done|].
    by rewrite set_attr_attrs, lookup_insert_eq.
  - rewrite lookup_insert_ne by done. eauto.
Qed.

Lemma child_after_write l l' (i : nat) (slot : string) (w : Value) (c : loc)
    h o :
  h !! l' = Some o →
  Py.child l i h = Some (c, h) →
  Py.child l i (<[l' := Obj.set_attr slot w o]> h)
  = Some (c, <[l' := Obj.set_attr slot w o]> h).
Proof.
  intros Ho [_ (o' & Ho' & Hc)]%child_Some.
  apply child_Some. split; [done|].
  destruct (decide (l' = l)) as [->|Hl].
  - rewrite lookup_insert_eq. eexists. split; [done|].
    rewrite set_attr_children. congruence.
  - rewrite lookup_insert_ne by done. eauto.
Qed.

(** The two rewrite rules are one procedure on two slots. *)
Lemma rewrite_rule_apply_Some (r : Rule.t) :
  r ∈ RulesManager.rewrite_rules RulesManager.init →
  ∃ slot : string,
    (slot = "predicate" ∨ slot = "target_list")%string
    ∧ ∀ before context h after h',
        Rule.apply r before context h = Some (after, h')
        ↔ ∃ v o, Py.getattr before slot h = Some (v, h)
                 ∧ Py.child before 0 h = Some (after, h)
                 ∧ h !! after = Some o
                 ∧ h' = <[after := Obj.set_attr slot v o]> h.
Proof.
  intros [-> | ->]%rewrite_rules_inv.
  - exists "predicate"%string. split; [by left|]. intros.
    apply EmbedFilterIntoGet_apply_Some.
  - exists "target_list"%string. split; [by right|]. intros.
    apply EmbedProjectIntoGet_apply_Some.
Qed.

(** X11. Running a pushdown a second time changes nothing: after a
    successful [apply], the same [apply] on the same node succeeds again,
    returns the same object and leaves the store as the first run left
    it. *)
Theorem pushdown_is_idempotent (r : Rule.t) (before : loc)
    (context : OptimizerContext.t) h (after : loc) h' :
  r ∈ RulesManager.rewrite_rules RulesManager.init →
  Rule.apply r before context h = Some (after, h') →
  Rule.apply r before context h' = Some (after, h').
Proof.
  intros (slot & _ & Hiff)%rewrite_rule_apply_Some.
  intros (v & o & Hattr & Hchild & Ho & ->)%Hiff.
  apply Hiff. exists v, (Obj.set_attr slot v o). split_and!.
  - apply getattr_after_same_write; auto.
  - by apply child_after_write.
  - apply lookup_insert_eq.
  - by rewrite set_attr_twice, insert_insert_eq.
Qed.

(** X12. The later pushdown wins. When two nodes have the same first child
    and the second node is not that child itself, applying a rewrite rule
    to the first node and then to the second leaves the store exactly as
    applying it to the second node alone: the value the first run wrote is
    overwritten, not combined with the new one. *)
Theorem later_pushdown_overwrites (r : Rule.t) (before1 before2 : loc)
    (context : OptimizerContext.t) h (get : loc) h1 h2 :
  r ∈ RulesManager.rewrite_rules RulesManager.init →
  before2 ≠ get →
  Rule.apply r before1 context h = Some (get, h1) →
  Rule.apply r before2 context h = Some (get, h2) →
  Rule.apply r before2 context h1 = Some (get, h2).
Proof.
  intros (slot & _ & Hiff)%rewrite_rule_apply_Some Hne.
  intros (v1 & o1 & Hattr1 & Hchild1 & Ho1 & ->)%Hiff.
  intros (v2 & o2 & Hattr2 & Hchild2 & Ho2 & ->)%Hiff.
  assert (o2 = o1) as -> by congruence.
  apply Hiff. exists v2, (Obj.set_attr slot v1 o1). split_and!.
  - apply getattr_after_same_write; auto.
  - by apply child_after_write.
  - apply lookup_insert_eq.
  - by rewrite set_attr_twice, insert_insert_eq.
Qed.

(** X13. The two pushdowns commute: if each of them succeeds on the store,
    on whatever nodes, then they succeed one after the other in either
    order, return what they returned alone, and both orders end in the
    same store. *)
Theorem pushdowns_commute (filter project : loc)
    (context : OptimizerContext.t) h (after1 after2 : loc) h1 h2 :
  EmbedFilterIntoGet.apply filter context h = Some (after1, h1) →
  EmbedProjectIntoGet.apply project context h = Some (after2, h2) →
  ∃ h',
    EmbedProjectIntoGet.apply project context h1 = Some (after2, h')
    ∧ EmbedFilterIntoGet.apply filter context h2 = Some (after1, h').
Proof.
  intros (P & o1 & HP & Hc1 & Ho1 & ->)%EmbedFilterIntoGet_apply_Some.
  intros (C & o2 & HC & Hc2 & Ho2 & ->)%EmbedProjectIntoGet_apply_Some.
  destruct (decide (after1 = after2)) as [->|Hne].
  - assert (o2 = o1) as -> by congruence.
    exists (<[after2 := Obj.set_attr "target_list" C
                          (Obj.set_attr "predicate" P o1)]> h).
    split.
    + apply EmbedProjectIntoGet_apply_Some.
      exists C, (Obj.set_attr "predicate" P o1). split_and!.
      * by apply getattr_after_other_write.
      * by apply child_after_write.
      * apply lookup_insert_eq.
      * by rewrite insert_insert_eq.
    + apply EmbedFilterIntoGet_apply_Some.
      exists P, (Obj.set_attr "target_list" C o1). split_and!.
      * by apply getattr_after_other_write.
      * by apply child_after_write.
      * apply lookup_insert_eq.
      * rewrite insert_insert_eq. f_equal. by apply set_attr_swap.
  - exists (<[after2 := Obj.set_attr "target_list" C o2]>
              (<[after1 := Obj.set_attr "predicate" P o1]> h)).
    split.
    + apply EmbedProjectIntoGet_apply_Some. exists C, o2. split_and!.
      * by apply getattr_after_other_write.
      * by apply child_after_write.
      * by rewrite lookup_insert_ne.
      * done.
    + apply EmbedFilterIntoGet_apply_Some. exists P, o1. split_and!.
      * by apply getattr_after_other_write.
      * by apply child_after_write.
      * by rewrite lookup_insert_ne.
      * by apply insert_insert_ne.
Qed.

(** X14. When a pushdown raises. On a node that is in the store together
    with its children, the filter pushdown raises exactly when the node has
    no attribute [predicate] or no child, and the projection pushdown
    exactly when it has no attribute [target_list] or no child. The tag of
    the node and of its child is never looked at. *)
Theorem pushdown_raises_iff (before : loc) (context : OptimizerContext.t)
    h o :
  h !! before = Some o →
  (∀ c, c ∈ Obj.children o → is_Some (h !! c)) →
  (EmbedFilterIntoGet.apply before context h = None
   ↔ Obj.attrs o !! "predicate" = None ∨ Obj.children o = [])
  ∧ (EmbedProjectIntoGet.apply before context h = None
     ↔ Obj.attrs o !! "target_list" = None ∨ Obj.children o = []).
Proof.
  intros Ho Hchildren.
  unfold EmbedFilterIntoGet.apply, EmbedProjectIntoGet.apply, Py.bind,
    Py.getattr, Py.child, Py.setattr, Py.ret.
  rewrite Ho. split.
  - destruct (Obj.attrs o !! "predicate"); [|by split; [left|]].
    rewrite Ho. destruct (Obj.children o) as [|c cs] eqn:Hcs; simpl.
    { by split; [right|]. }
    destruct (Hchildren c) as [oc ->]; [by left|].
    split; [done | by intros [? | ?]].
  - destruct (Obj.attrs o !! "target_list"); [|by split; [left|]].
    rewrite Ho. destruct (Obj.children o) as [|c cs] eqn:Hcs; simpl.
    { by split; [right|]. }
    destruct (Hchildren c) as [oc ->]; [by left|].
    split; [done | by intros [? | ?]].
Qed.

End pushdowns.

Lemma pushdown_is_idempotent_witness :
  Rule.apply EmbedFilterIntoGet.rule 11%nat Samples.context
    (<[12%nat := Obj.set_attr "predicate" (VRef 100) Samples.get_node]>
       Samples.heap)
  = Some (12%nat,
          <[12%nat := Obj.set_attr "predicate" (VRef 100) Samples.get_node]>
            Samples.heap).
Proof.
  apply (pushdown_is_idempotent EmbedFilterIntoGet.rule 11%nat
           Samples.context Samples.heap).
  - simpl. rewrite !elem_of_cons. tauto.
  - vm_compute. reflexivity.
Defined.

Lemma later_pushdown_overwrites_witness :
  Rule.apply EmbedFilterIntoGet.rule 13%nat Samples.context
    (<[12%nat := Obj.set_attr "predicate" (VRef 100) Samples.get_node]>
       Samples.shared_heap)
  = Some (12%nat,
          <[12%nat := Obj.set_attr "predicate" (VRef 106) Samples.get_node]>
            Samples.shared_heap).
Proof.
  apply (later_pushdown_overwrites EmbedFilterIntoGet.rule 11%nat 13%nat
           Samples.context Samples.shared_heap).
  - simpl. rewrite !elem_of_cons. tauto.
  - lia.
  - vm_compute. reflexivity.
  - vm_compute. reflexivity.
Defined.

Lemma pushdowns_commute_witness :
  ∃ h',
    EmbedProjectIntoGet.apply 10%nat Samples.context
      (<[12%nat := Obj.set_attr "predicate" (VRef 100) Samples.get_node]>
         Samples.shared_heap) = Some (12%nat, h')
    ∧ EmbedFilterIntoGet.apply 11%nat Samples.context
        (<[12%nat := Obj.set_attr "target_list" (VRef 101) Samples.get_node]>
           Samples.shared_heap) = Some (12%nat, h').
Proof.
  apply (pushdowns_commute 11%nat 10%nat Samples.context Samples.shared_heap).
  - vm_compute. reflexivity.
  - vm_compute. reflexivity.
Defined.

Lemma pushdown_raises_iff_witness :
  (EmbedFilterIntoGet.apply 11%nat Samples.context Samples.heap = None
   ↔ Obj.attrs Samples.filter_node !! "predicate" = None
     ∨ Obj.children Samples.filter_node = [])
  ∧ (EmbedProjectIntoGet.apply 11%nat Samples.context Samples.heap = None
     ↔ Obj.attrs Samples.filter_node !! "target_list" = None
       ∨ Obj.children Samples.filter_node = []).
Proof.
  apply (pushdown_raises_iff 11%nat Samples.context Samples.heap
           Samples.filter_node).
  - reflexivity.
  - intros c Hc. apply list_elem_of_singleton in Hc. subst c. by eexists.
Defined.

(** ** More on the implementation rules *)

Section implementation_edges.

Implicit Types (h : gmap loc Object) (o : Object).

(** X15. [LogicalGetToSeqScan.apply] raises exactly when the operator
    lacks one of the three attributes it reads, [predicate], [select_list]
    or [dataset_metadata]; the tag and the children of the operator play
    no part. *)
Theorem LogicalGetToSeqScan_raises_iff (before : loc)
    (context : OptimizerContext.t) h o :
  h !! before = Some o →
  LogicalGetToSeqScan.apply before context h = None
  ↔ Obj.attrs o !! "predicate" = None
    ∨ Obj.attrs o !! "select_list" = None
    ∨ Obj.attrs o !! "dataset_metadata" = None.
Proof.
  intros Ho. split.
  - intros Hnone.
    destruct (Obj.attrs o !! "predicate") as [P|] eqn:HP; [|by left].
    destruct (Obj.attrs o !! "select_list") as [C|] eqn:HC;
      [|by right; left].
    destruct (Obj.attrs o !! "dataset_metadata") as [M|] eqn:HM;
      [|by right; right].
    assert (LogicalGetToSeqScan.apply before context h
            = Some (fresh (dom h),
                    <[fresh (dom h) :=
                        OPlan (AbstractPlan.mk SEQUENTIAL_SCAN
                                 [fresh ({[fresh (dom h)]} ∪ dom h)]
                                 (list_to_map [("predicate", P);
                                               ("output_cols", C)]%string))]>
                      (<[fresh ({[fresh (dom h)]} ∪ dom h) :=
                           OPlan (AbstractPlan.mk STORAGE_PLAN []
                                    (list_to_map
                                       [("metadata", M)]%string))]> h)))
      as Hsome.
    { apply LogicalGetToSeqScan_apply_Some.
      by exists o, P, C, M, (fresh ({[fresh (dom h)]} ∪ dom h)). }
    congruence.
  - intros Hmissing.
    destruct (LogicalGetToSeqScan.apply before context h) as [[after h']|]
      eqn:Happly; [|done].
    apply LogicalGetToSeqScan_apply_Some in Happly
      as (o' & P & C & M & s & Ho' & HP & HC & HM & _).
    assert (o' = o) as -> by congruence.
    destruct Hmissing as [? | [? | ?]]; congruence.
Qed.

(** X17. Each of the four single-node implementation rules succeeds
    exactly when [before] has every attribute the rule reads, and then it
    adds one node to the store, at an address not in use: a plan node of
    the rule's type, without children, whose fields are the values read,
    each under the name it was read from. *)
Theorem single_node_rule_copies_fields (r : Rule.t) (nt : PlanNodeType)
    (names : list string) (before : loc) (context : OptimizerContext.t)
    h (after : loc) h' :
  (r, nt, names) ∈ single_node_rules →
  Rule.apply r before context h = Some (after, h')
  ↔ ∃ o vs,
      h !! before = Some o
      ∧ mapM (λ name, Obj.attrs o !! name) names = Some vs
      ∧ after = fresh (dom h)
      ∧ h' = <[after := OPlan (AbstractPlan.mk nt []
                                 (list_to_map (zip names vs)))]> h.
Proof.
  unfold single_node_rules. rewrite !elem_of_cons, elem_of_nil.
  intros [[= -> -> ->] | [[= -> -> ->] | [[= -> -> ->] | [[= -> -> ->] | []]]]];
    simpl;
    unfold LogicalCreateToPhysical.apply, Plans.CreatePlan,
      LogicalCreateUDFToPhysical.apply, Plans.CreateUDFPlan,
      LogicalInsertToPhysical.apply, Plans.InsertPlan,
      LogicalLoadToPhysical.apply, Plans.LoadDataPlan;
    (split;
     [ intros H; py_inv; eexists _, _; split; [eassumption|];
       split;
       [ repeat match goal with
                | Hv : Obj.attrs _ !! _ = Some _ |- _ =>
                  cbn; rewrite Hv; clear Hv
                end; reflexivity
       | done ]
     | intros (o & vs & Ho & Hvs & -> & ->); cbn in Hvs;
       repeat match type of Hvs with
              | context [Obj.attrs o !! ?name] =>
                let Hv := fresh "Hv" in
                destruct (Obj.attrs o !! name) eqn:Hv; cbn in Hvs; [|done]
              end;
       injection Hvs as <-;
       repeat (apply bind_Some; eexists _, _;
               split; [apply getattr_Some; by eauto|]);
       apply bind_Some; eexists _, _; split; [by apply new_Some|];
       by apply ret_Some ]).
Qed.

End implementation_edges.

Lemma seqscan_from_select_list_witness :
  ∃ after storage h',
    LogicalGetToSeqScan.apply 12%nat Samples.context
      (Samples.pushed_heap (Some VNone)) = Some (after, h')
    ∧ h' !! after
      = Some (OPlan (AbstractPlan.mk SEQUENTIAL_SCAN [storage]
                       (list_to_map [("predicate", VRef 100);
                                     ("output_cols", VNone)]%string)))
    ∧ h' !! storage
      = Some (OPlan (AbstractPlan.mk STORAGE_PLAN []
                       (list_to_map [("metadata", VRef 103)]%string)))
    ∧ h' !! 12%nat = Some (Samples.pushed_get (Some VNone)).
Proof.
  apply (seqscan_from_select_list 12%nat Samples.context
           (Samples.pushed_heap (Some VNone))
           (Samples.pushed_get (Some VNone)) (VRef 100) VNone (VRef 103));
    reflexivity.
Defined.

Lemma LogicalGetToSeqScan_raises_iff_witness :
  LogicalGetToSeqScan.apply 12%nat Samples.context Samples.heap = None
  ↔ Obj.attrs Samples.get_node !! "predicate" = None
    ∨ Obj.attrs Samples.get_node !! "select_list" = None
    ∨ Obj.attrs Samples.get_node !! "dataset_metadata" = None.
Proof.
  apply (LogicalGetToSeqScan_raises_iff 12%nat Samples.context Samples.heap
           Samples.get_node).
  reflexivity.
Defined.

Lemma single_node_rule_copies_fields_witness :
  Rule.apply LogicalCreateToPhysical.rule 20%nat Samples.context
    Samples.create_heap
  = Some (21%nat,
          <[21%nat := OPlan (AbstractPlan.mk CREATE []
                               (list_to_map
                                  [("video", VRef 104);
                                   ("column_list", VRef 105);
                                   ("if_not_exists", VBool true)]%string))]>
            Samples.create_heap)
  ↔ ∃ o vs,
      Samples.create_heap !! 20%nat = Some o
      ∧ mapM (λ name, Obj.attrs o !! name)
          ["video"; "column_list"; "if_not_exists"]%string = Some vs
      ∧ 21%nat = fresh (dom Samples.create_heap)
      ∧ <[21%nat := OPlan (AbstractPlan.mk CREATE []
                             (list_to_map
                                [("video", VRef 104);
                                 ("column_list", VRef 105);
                                 ("if_not_exists", VBool true)]%string))]>
          Samples.create_heap
        = <[21%nat := OPlan (AbstractPlan.mk CREATE []
                               (list_to_map
                                  (zip ["video"; "column_list";
                                        "if_not_exists"]%string vs)))]>
            Samples.create_heap.
Proof.
  apply (single_node_rule_copies_fields LogicalCreateToPhysical.rule CREATE
           ["video"; "column_list"; "if_not_exists"]%string 20%nat
           Samples.context Samples.create_heap 21%nat).
  unfold single_node_rules. rewrite !elem_of_cons. tauto.
Defined.

(** ** The manager is a singleton *)

Lemma calls_after_first (n : nat) (l : loc) :
  Singleton.calls n
    (Singleton.mk (Some l) {[l := Some RulesManager.init]})
  = (replicate n l,
     Singleton.mk (Some l) {[l := Some RulesManager.init]}).
Proof.
  induction n as [|n IH]; [done|].
  cbn [Singleton.calls]. unfold Singleton.call, Singleton.new at 1.
  cbn [Singleton._instance]. unfold Singleton.init.
  cbn [Singleton._instance Singleton.objects].
  rewrite insert_singleton_eq, IH. done.
Qed.

(** X18. However often [RulesManager()] is evaluated after the class has
    been defined, every evaluation returns the same object, no second
    manager object is ever made, and the object holds the two rule lists of
    [__init__]. *)
Theorem manager_is_a_singleton (n : nat) :
  let l := fresh (∅ : gset loc) in
  ∀ ls s,
    Singleton.calls (S n) Singleton.initial = (ls, s) →
    ls = replicate (S n) l
    ∧ Singleton._instance s = Some l
    ∧ Singleton.objects s = {[l := Some RulesManager.init]}
    ∧ Singleton.rewrite_rules l s
      = Some [EmbedFilterIntoGet.rule; EmbedProjectIntoGet.rule]
    ∧ Singleton.implementation_rules l s
      = Some [LogicalCreateToPhysical.rule; LogicalCreateUDFToPhysical.rule;
              LogicalInsertToPhysical.rule; LogicalLoadToPhysical.rule;
              LogicalGetToSeqScan.rule].
Proof.
  intros l ls s. cbn [Singleton.calls].
  unfold Singleton.call at 1, Singleton.new at 1, Singleton.initial.
  cbn [Singleton._instance Singleton.objects]. unfold Singleton.init.
  cbn [Singleton._instance Singleton.objects].
  rewrite dom_empty_L. fold l.
  rewrite insert_insert_eq, insert_empty, calls_after_first.
  intros [= <- <-].
  unfold Singleton.rewrite_rules, Singleton.implementation_rules.
  cbn [Singleton._instance Singleton.objects].
  rewrite lookup_singleton_eq. by split_and!.
Qed.

Lemma manager_is_a_singleton_witness :
  let l := fresh (∅ : gset loc) in
  (Singleton.calls 3 Singleton.initial).1 = replicate 3 l
  ∧ Singleton._instance (Singleton.calls 3 Singleton.initial).2 = Some l
  ∧ Singleton.objects (Singleton.calls 3 Singleton.initial).2
    = {[l := Some RulesManager.init]}
  ∧ Singleton.rewrite_rules l (Singleton.calls 3 Singleton.initial).2
    = Some [EmbedFilterIntoGet.rule; EmbedProjectIntoGet.rule]
  ∧ Singleton.implementation_rules l (Singleton.calls 3 Singleton.initial).2
    = Some [LogicalCreateToPhysical.rule; LogicalCreateUDFToPhysical.rule;
            LogicalInsertToPhysical.rule; LogicalLoadToPhysical.rule;
            LogicalGetToSeqScan.rule].
Proof.
  apply (manager_is_a_singleton 2).
  by destruct (Singleton.calls 3 Singleton.initial).
Defined.
